(** * pond_temp_sender: the acquisition / aggregation / transmission cycle

    A shallow embedding of [main.py].  Python dictionaries are finite maps
    from strings to Python values, the numbers of the program (int and
    float alike) are exact rationals, exceptions are [None] results, and
    the variables of [main] that outlive one pass of the loop are an
    explicit state threaded through a small state-and-exception monad
    which also records what the firmware does to the outside world. *)

From Stdlib Require Import ZArith QArith Qcanon Lqa.
From Stdlib.Strings Require Import Ascii Byte.
From stdpp Require Import base numbers option list sorting strings gmap.

Local Open Scope Qc_scope.

(** ** Python values *)

(** The values stored in the telemetry records.  [PNum] stands for both
    [int] and [float]: arithmetic is exact, so rounding of the division in
    [avg_from_json] is not part of the model. *)
Inductive pyval : Type :=
| PNone
| PBool (b : bool)
| PNum (q : Qc)
| PStr (s : string).

#[global] Instance pyval_eq_dec : EqDecision pyval.
Proof. solve_decision. Defined.

(** A record of the batch: a Python [dict] with string keys. *)
Abbreviation dict := (gmap string pyval).

(** The number a value denotes in arithmetic, [None] where Python raises
    [TypeError] ([bool] is a subtype of [int]). *)
Definition py_num (v : pyval) : option Qc :=
  match v with
  | PNum q => Some q
  | PBool true => Some 1
  | PBool false => Some 0
  | PNone | PStr _ => None
  end.

(** Python's [==]. *)
Definition py_eqb (a b : pyval) : bool :=
  match py_num a, py_num b with
  | Some x, Some y => bool_decide (x = y)
  | None, None => bool_decide (a = b)
  | _, _ => false
  end.

(** [str(x)] for the two shapes [dict.get] can hand to it here. *)
Definition py_str (o : option string) : string :=
  match o with
  | Some s => s
  | None => "None"
  end.

(** A stored rational read back as a Python value ([None] is [None]). *)
Definition py_of_opt (o : option Qc) : pyval :=
  match o with
  | Some q => PNum q
  | None => PNone
  end.

(** ** Configuration constants *)

Definition BROADCAST_IP : string := "10.81.1.255".
Definition LOW_ALARM_TEMP : Qc := Qc_of_Z 20.
Definition HIGH_ALARM_TEMP : Qc := Qc_of_Z 25.
Definition LOOP_SLEEP_SECS : Z := 1.
Definition TYPE_HARDWARE : string := "Hardware".

Definition SENSOR_PLACEMENTS : gmap string string :=
  list_to_map
    [ ("28fd93df0d000054", "Pump housing");
      ("2825d05704e13c71", "Pond");
      ("287e9d5704e13ca2", "Pond") ].

Definition get_value_from_dict (dictionary : gmap string string) (key : string)
  : option string :=
  dictionary !! key.

(** ** The world seen by one pass of the loop *)

(** A one-wire device address ([bytearray] of the ROM code). *)
Abbreviation rom := (list byte).

(** What the hardware and the libraries answer during one cycle.  A [None]
    answer is a raised exception. *)
Record world : Type := World {
  w_convert_temp : option unit;            (* ds_sensor.convert_temp() *)
  w_read_temp : rom -> option Qc;          (* ds_sensor.read_temp(rom) *)
  w_read_scratch : rom -> option (list byte);  (* ds_sensor.read_scratch(rom) *)
  w_get_reading : option (Qc * Qc * Qc);   (* onboard current_temp, maximum, minimum *)
  w_time : nat -> Z;                       (* n-th get_epoch_time() of the cycle *)
  w_dumps : option unit;                   (* ujson.dumps(measures) *)
  w_sendto : option unit                   (* sock.sendto(...) *)
}.

(** What the firmware does that can be seen from outside. *)
Inductive event : Type :=
| ELed (on : bool)
| ESleepMs (ms : Z)
| ESleep (secs : Z)
| EActive (on : bool)
| EConnect (ssid password : string)
| EIsConnected (answer : bool)
| EPrint (d : dict)
| ESendto (payload : list dict) (ip : string) (port : Z).

(** ** Helpers of [main.py] *)

Definition hex_digit (n : N) : ascii :=
  ascii_of_N (if (n <? 10)%N then 48 + n else 87 + n).

(** [ubinascii.hexlify(rom).decode('utf-8')] *)
Definition rom_to_hex (r : rom) : string :=
  foldr (fun b s =>
           String (hex_digit (Byte.to_N b / 16))
                  (String (hex_digit (Byte.to_N b mod 16)) s))
        EmptyString r.

(** [sensor.read_scratch(rom)[4] & 0x60 >> 5]: in Python [>>] binds tighter
    than [&], so the mask is [0x60 >> 5]. *)
Definition get_resolution (w : world) (r : rom) : option Z :=
  scratch ← w_read_scratch w r;
  b ← scratch !! 4%nat;
  Some (Z.land (Z.of_N (Byte.to_N b)) (Z.shiftr 96 5)).

(** [sum(values)]: a left fold from the integer 0. *)
Definition py_sum (values : list pyval) : option Qc :=
  foldl (fun acc v => a ← acc; x ← py_num v; Some (a + x)) (Some 0) values.

Definition avg_from_json (json_array : list dict) (key condition_key : string)
    (condition_val : pyval) : option Qc :=
  values ← mapM (fun entry : dict => entry !! key)
            (filter (fun entry : dict =>
                       py_eqb (default PNone (entry !! condition_key)) condition_val = true)
                    json_array);
  match values with
  | [] => Some 0
  | _ :: _ => s ← py_sum values; Some (s / Qc_of_Z (Z.of_nat (length values)))
  end.

(** The dictionary built for one device in [external_sensors]; [i] is the
    index of the [get_epoch_time] call. *)
Definition measurement (w : world) (i : nat) (r : rom) : option dict :=
  tempC ← w_read_temp w r;
  let alarm :=
    if bool_decide (tempC < LOW_ALARM_TEMP) || bool_decide (HIGH_ALARM_TEMP < tempC)
    then true else false in
  resolution_raw ← get_resolution w r;
  resolution ← get_resolution w r;
  Some (list_to_map
    [ ("type", PStr TYPE_HARDWARE);
      ("value", PNum tempC);
      ("sensor", PStr (rom_to_hex r));
      ("location", PStr (py_str (get_value_from_dict SENSOR_PLACEMENTS (rom_to_hex r))));
      ("time", PNum (Qc_of_Z (w_time w i)));
      ("resolution_raw", PNum (Qc_of_Z resolution_raw));
      ("resolution_bits", PNum (Qc_of_Z (resolution * 9 + 9)));
      ("alarm", PBool alarm) ]).

(** [external_sensors(roms, ds_sensor)], the [i]-th device taking the
    [(start + i)]-th time stamp. *)
Fixpoint external_sensors_from (w : world) (start : nat) (roms : list rom)
  : option (list dict) :=
  match roms with
  | [] => Some []
  | r :: rest =>
      m ← measurement w start r;
      measures ← external_sensors_from w (S start) rest;
      Some (m :: measures)
  end.

Definition external_sensors (w : world) (roms : list rom) : option (list dict) :=
  external_sensors_from w 0 roms.

(** ** State, exceptions and effects *)

(** The variables of [main] that live across passes of the loop, and the
    trace of what has been done so far. *)
Record state : Type := State {
  c_max : option Qc;
  c_min : option Qc;
  summary : dict;
  out : list event
}.

(** A computation changes the state and either returns or raises; what it
    did to the state before raising stays done. *)
Definition M (A : Type) : Type := state -> state * option A.

#[global] Instance M_ret : MRet M := fun A a s => (s, Some a).
#[global] Instance M_bind : MBind M := fun A B f m s =>
  match m s with
  | (s', Some a) => f a s'
  | (s', None) => (s', None)
  end.

Definition lift {A} (o : option A) : M A := fun s => (s, o).
Definition gets {A} (f : state -> A) : M A := fun s => (s, Some (f s)).
Definition emit (e : event) : M unit :=
  fun s => (State (c_max s) (c_min s) (summary s) (out s ++ [e]), Some tt).
Definition set_c_max (v : option Qc) : M unit :=
  fun s => (State v (c_min s) (summary s) (out s), Some tt).
Definition set_c_min (v : option Qc) : M unit :=
  fun s => (State (c_max s) v (summary s) (out s), Some tt).
Definition set_summary (d : dict) : M unit :=
  fun s => (State (c_max s) (c_min s) d (out s), Some tt).

(** [try: body except: pass] *)
Definition try_except_pass (body : M unit) : M unit :=
  fun s => ((body s).1, Some tt).

(** ** The loop of [main] *)

Definition get_epoch_time (w : world) (i : nat) : pyval :=
  PNum (Qc_of_Z (w_time w i)).

(** The records appended after the device measurements; [i] is the index
    of the [get_epoch_time] call of the cycle. *)
Definition onboard_record (w : world) (i : nat) (reading : Qc * Qc * Qc) : dict :=
  list_to_map
    [ ("location", PStr "onboard"); ("type", PStr TYPE_HARDWARE);
      ("sensor", PStr "default"); ("value", PNum reading.1.1);
      ("max_c", PNum reading.1.2); ("min_C", PNum reading.2);
      ("time", get_epoch_time w i) ].

Definition avg_record (w : world) (i : nat) (average_pond_temp : Qc) : dict :=
  list_to_map
    [ ("location", PStr "Pond"); ("value", PNum average_pond_temp);
      ("type", PStr "avg_temp"); ("time", get_epoch_time w i) ].

Definition max_record (w : world) (i : nat) (cmax : option Qc) : dict :=
  list_to_map
    [ ("location", PStr "Pond"); ("value", py_of_opt cmax);
      ("type", PStr "max"); ("time", get_epoch_time w i) ].

Definition min_record (w : world) (i : nat) (cmin : option Qc) : dict :=
  list_to_map
    [ ("location", PStr "Pond"); ("value", py_of_opt cmin);
      ("type", PStr "min"); ("time", get_epoch_time w i) ].

Definition summary_record (average_pond_temp : Qc) (cmin cmax : option Qc) : dict :=
  list_to_map
    [ ("type", PStr "summary"); ("location", PStr "Pond");
      ("avg", PNum average_pond_temp); ("min", py_of_opt cmin);
      ("max", py_of_opt cmax) ].

(** The body of the [try] block, for the devices [roms] found at start-up.
    The payload of [ESendto] is the list handed to [ujson.dumps]; its text
    encoding is left to the encoder. *)
Definition cycle (w : world) (roms : list rom) : M unit :=
  let n := length roms in
  emit (ELed false);;
  lift (w_convert_temp w);;
  emit (ESleepMs 750);;
  measures ← lift (external_sensors w roms);
  reading ← lift (w_get_reading w);
  let measures := measures ++ [onboard_record w n reading] in
  average_pond_temp ← lift (avg_from_json measures "value" "location" (PStr "Pond"));
  let measures := measures ++ [avg_record w (n + 1) average_pond_temp] in
  cmax ← gets c_max;
  match cmax with
  | None =>
      set_c_max (Some average_pond_temp);;
      set_c_min (Some average_pond_temp)
  | Some mx =>
      (if bool_decide (mx < average_pond_temp)
       then set_c_max (Some average_pond_temp) else mret tt);;
      cmin ← gets c_min;
      mn ← lift cmin;
      if bool_decide (average_pond_temp < mn)
      then set_c_min (Some average_pond_temp) else mret tt
  end;;
  cmax ← gets c_max;
  let measures := measures ++ [max_record w (n + 2) cmax] in
  cmin ← gets c_min;
  let measures := measures ++ [min_record w (n + 3) cmin] in
  let summ := summary_record average_pond_temp cmin cmax in
  set_summary summ;;
  let measures := measures ++ [summ] in
  emit (EPrint summ);;
  lift (w_dumps w);;
  emit (ELed true);;
  lift (w_sendto w);;
  emit (ESendto measures BROADCAST_IP 5007).

(** The [while wlan and socket and roms] loop, over the worlds of its
    successive passes: each pass runs the guarded body and then sleeps.
    The loop condition never changes once the loop is entered. *)
Fixpoint main_loop (roms : list rom) (ws : list world) : M unit :=
  match ws with
  | [] => mret tt
  | w :: rest =>
      try_except_pass (cycle w roms);;
      emit (ESleep LOOP_SLEEP_SECS);;
      main_loop roms rest
  end.

(** The state in which [main] enters the loop, the trace starting there. *)
Definition init_state : state := State None None ∅ [].

(** The trace of the first [length ws] passes of a run. *)
Definition run (roms : list rom) (ws : list world) : state :=
  (main_loop roms ws init_state).1.

(** ** Connecting to the network *)

(** [flasher(led, delay_ms, times)]: the loop runs while [times > 0]. *)
Fixpoint flasher_loop (delay_ms : Z) (times : nat) : list event :=
  match times with
  | O => []
  | S t => [ELed false; ESleepMs delay_ms; ELed true] ++ flasher_loop delay_ms t
  end.

Definition flasher (delay_ms times : Z) : list event :=
  flasher_loop delay_ms (Z.to_nat times).

(** The [while not wlan.isconnected()] loop.  [isconnected k] is the answer
    to the [k]-th poll; the loop has no bound of its own, so the model
    counts the polls it may still make and answers [None] when they are
    used up before the link is ready. *)
Fixpoint wlan_wait (fuel : nat) (isconnected : nat -> bool) (k : nat)
    (retry_count : Z) (tr : list event) : option (Z * list event) :=
  match fuel with
  | O => None
  | S fuel' =>
      if isconnected k
      then Some (retry_count, tr ++ [EIsConnected true])
      else wlan_wait fuel' isconnected (S k) (retry_count + 1)
             (tr ++ [EIsConnected false] ++ flasher 20 20 ++ [ESleep 5])
  end.

(** [connect_to_wlan(ssid, password)]: the value of [retry_count] and the
    trace at the [return]. *)
Definition connect_to_wlan (fuel : nat) (isconnected : nat -> bool)
    (ssid password : string) : option (Z * list event) :=
  wlan_wait fuel isconnected 0 1
    (flasher 5 10 ++ [ESleep 3; EActive true; ESleep 2; EConnect ssid password]).

(** ** Reading the records back *)

(** The batches handed to the transport, in the order they were sent. *)
Definition sent_batches (tr : list event) : list (list dict) :=
  omap (fun e => match e with ESendto p _ _ => Some p | _ => None end) tr.

(** The number stored under [key] in a record. *)
Definition field (key : string) (d : dict) : option Qc :=
  d !! key ≫= py_num.

(** The value of the first record of the batch whose type is [ty]. *)
Definition typed_value (ty : string) (b : list dict) : option Qc :=
  head (filter (fun d : dict => d !! "type" = Some (PStr ty)) b) ≫= field "value".

(** The batch [b] reports the group average [a], minimum [mn] and maximum
    [mx]: in its records of type avg_temp, min and max, and all three again
    in the summary record that closes it. *)
Definition reports (b : list dict) (a mn mx : Qc) : Prop :=
  typed_value "avg_temp" b = Some a /\
  typed_value "min" b = Some mn /\
  typed_value "max" b = Some mx /\
  exists summ : dict,
    last b = Some summ /\ summ !! "type" = Some (PStr "summary") /\
    field "avg" summ = Some a /\ field "min" summ = Some mn /\
    field "max" summ = Some mx.

(** The values of the records of [ms] located in [group]. *)
Definition group_values (group : string) (ms : list dict) : list Qc :=
  omap (fun m : dict =>
          if bool_decide (m !! "location" = Some (PStr group))
          then field "value" m else None) ms.

(** Arithmetic mean, written as in the specification: the sum of the
    values over their number, and 0 for no value at all. *)
Definition sum_list (vs : list Qc) : Qc := foldr Qcplus 0 vs.

Definition mean (vs : list Qc) : Qc :=
  match vs with
  | [] => 0
  | _ :: _ => sum_list vs / Qc_of_Z (Z.of_nat (length vs))
  end.

(** Least and greatest element of a list, [None] for the empty list. *)
Definition min_list (vs : list Qc) : option Qc :=
  foldr (fun v acc => match acc with
                      | Some m => Some (if bool_decide (v < m) then v else m)
                      | None => Some v
                      end) None vs.

Definition max_list (vs : list Qc) : option Qc :=
  foldr (fun v acc => match acc with
                      | Some m => Some (if bool_decide (m < v) then v else m)
                      | None => Some v
                      end) None vs.

(** The device measurements of a pass that got as far as the aggregation. *)
Definition cycle_measurements (roms : list rom) (w : world) : option (list dict) :=
  _ ← w_convert_temp w;
  ms ← external_sensors w roms;
  _ ← w_get_reading w;
  Some ms.

(** The group average of such a pass, following the specification: the
    mean of the values of its device measurements located at the pond. *)
Definition cycle_average (roms : list rom) (w : world) : option Qc :=
  mean ∘ group_values "Pond" <$> cycle_measurements roms w.

(** The values of the pond measurements of all passes so far. *)
Definition measured_values (roms : list rom) (ws : list world) : list Qc :=
  mjoin (omap (fun w => group_values "Pond" <$> cycle_measurements roms w) ws).

(** The value of the min (max) record of the batch sent last. *)
Definition reported_min (roms : list rom) (ws : list world) : option Qc :=
  last (sent_batches (out (run roms ws))) ≫= typed_value "min".

Definition reported_max (roms : list rom) (ws : list world) : option Qc :=
  last (sent_batches (out (run roms ws))) ≫= typed_value "max".

(** The two-bit resolution code R1:R0 of a DS18x20 configuration byte. *)
Definition resolution_code (config : Z) : Z :=
  Z.shiftr (Z.land config 96) 5.

(** ** The aggregate update as a function *)

Definition new_max (cmax : option Qc) (a : Qc) : Qc :=
  match cmax with
  | Some mx => if bool_decide (mx < a) then a else mx
  | None => a
  end.

Definition new_min (cmin : option Qc) (a : Qc) : Qc :=
  match cmin with
  | Some mn => if bool_decide (a < mn) then a else mn
  | None => a
  end.

Definition batch_of (w : world) (n : nat) (ms : list dict) (rd : Qc * Qc * Qc)
    (a mx mn : Qc) : list dict :=
  ms ++ [ onboard_record w n rd; avg_record w (n + 1) a;
          max_record w (n + 2) (Some mx); min_record w (n + 3) (Some mn);
          summary_record a (Some mn) (Some mx) ].

Definition add_out (s : state) (evs : list event) : state :=
  State (c_max s) (c_min s) (summary s) (out s ++ evs).

(** What the sensors yield in a pass: the device measurements, the onboard
    reading and the group average. *)
Definition sensed (w : world) (roms : list rom)
  : option (list dict * (Qc * Qc * Qc) * Qc) :=
  ms ← external_sensors w roms;
  rd ← w_get_reading w;
  a ← avg_from_json (ms ++ [onboard_record w (length roms) rd])
        "value" "location" (PStr "Pond");
  Some (ms, rd, a).

(** [c_max] and [c_min] are set together. *)
Definition seeded_together (s : state) : Prop :=
  is_Some (c_max s) <-> is_Some (c_min s).

(** The events of a pass other than handing a batch to the transport. *)
Definition quiet_event (e : event) : Prop :=
  match e with
  | ELed _ | ESleepMs _ | EPrint _ => True
  | _ => False
  end.

(** The three ways a pass can go: it raises before the extrema are touched,
    it raises after they were updated, or it sends its batch. *)
Inductive pass (w : world) (roms : list rom) (s : state) : state -> option unit -> Prop :=
| pass_quiet evs :
    w_convert_temp w = None \/ sensed w roms = None ->
    Forall quiet_event evs ->
    pass w roms s (add_out s evs) None
| pass_lost ms rd a evs :
    w_convert_temp w = Some tt ->
    sensed w roms = Some (ms, rd, a) ->
    w_dumps w = None \/ w_sendto w = None ->
    Forall quiet_event evs ->
    pass w roms s
      (State (Some (new_max (c_max s) a)) (Some (new_min (c_min s) a))
             (summary_record a (Some (new_min (c_min s) a)) (Some (new_max (c_max s) a)))
             (out s ++ evs)) None
| pass_sent ms rd a evs :
    w_convert_temp w = Some tt ->
    sensed w roms = Some (ms, rd, a) ->
    w_dumps w = Some tt -> w_sendto w = Some tt ->
    Forall quiet_event evs ->
    pass w roms s
      (State (Some (new_max (c_max s) a)) (Some (new_min (c_min s) a))
             (summary_record a (Some (new_min (c_min s) a)) (Some (new_max (c_max s) a)))
             (out s ++ evs ++
                [ESendto (batch_of w (length roms) ms rd a
                            (new_max (c_max s) a) (new_min (c_min s) a))
                         BROADCAST_IP 5007])) (Some tt).

(** The later batch [b2] reports extrema at least as wide as those of the
    earlier batch [b1]. *)
Definition widens (b1 b2 : list dict) : Prop :=
  exists a1 mn1 mx1 a2 mn2 mx2,
    reports b1 a1 mn1 mx1 /\ reports b2 a2 mn2 mx2 /\ mn2 ≤ mn1 /\ mx1 ≤ mx2.

(** The state's extrema are at least as wide as those reported by [b]. *)
Definition covers (s : state) (b : list dict) : Prop :=
  exists a mn mx cmn cmx,
    reports b a mn mx /\ c_min s = Some cmn /\ c_max s = Some cmx /\
    cmn ≤ mn /\ mx ≤ cmx.

(** ** A concrete installation *)

(** The two pond probes of [SENSOR_PLACEMENTS]. *)
Definition pond_a : rom := [x28; x25; xd0; x57; x04; xe1; x3c; x71].
Definition pond_b : rom := [x28; x7e; x9d; x57; x04; xe1; x3c; xa2].
Definition pond_roms : list rom := [pond_a; pond_b].

(** The Dallas/Maxim CRC-8 (polynomial x^8 + x^5 + x^4 + 1, reflected) that
    closes a DS18x20 scratchpad and that the driver checks. *)
Fixpoint crc8_shift (n : nat) (crc : N) : N :=
  match n with
  | O => crc
  | S n' =>
      crc8_shift n' (if N.testbit crc 0
                     then N.lxor (N.shiftr crc 1) 140
                     else N.shiftr crc 1)
  end.

Definition crc8 (data : list byte) : N :=
  foldl (fun crc b => crc8_shift 8 (N.lxor crc (Byte.to_N b))) 0%N data.

(** The scratchpad of a DS18B20 reading 85 degrees: byte 4 is the
    configuration register, [0 R1 R0 1 1 1 1 1], byte 8 the CRC of the
    eight bytes before it. *)
Definition scratchpad (config : byte) : list byte :=
  let data := [x50; x05; x4b; x46; config; xff; x0c; x10] in
  data ++ [default x00 (Byte.of_N (crc8 data))].

(** A pass in which nothing fails, the probes reading [ta] and [tb]
    degrees and being configured by [config]. *)
Definition pond_world (ta tb : Z) (config : byte) : world :=
  {| w_convert_temp := Some tt;
     w_read_temp r :=
       if decide (rom_to_hex r = rom_to_hex pond_a) then Some (Qc_of_Z ta)
       else if decide (rom_to_hex r = rom_to_hex pond_b) then Some (Qc_of_Z tb)
       else None;
     w_read_scratch _ := Some (scratchpad config);
     w_get_reading := Some (Qc_of_Z 27, Qc_of_Z 28, Qc_of_Z 26);
     w_time i := (1700000000 + Z.of_nat i)%Z;
     w_dumps := Some tt;
     w_sendto := Some tt |}.

(** The same pass with the transport failing. *)
Definition send_fails (w : world) : world :=
  World (w_convert_temp w) (w_read_temp w) (w_read_scratch w) (w_get_reading w)
        (w_time w) (w_dumps w) None.

(** The same pass with the conversion command failing on the bus. *)
Definition bus_fails (w : world) : world :=
  World None (w_read_temp w) (w_read_scratch w) (w_get_reading w)
        (w_time w) (w_dumps w) (w_sendto w).

(** ** Proof automation *)

(** Goals about the order of rationals left by the comparisons of the code. *)
Ltac qc_order :=
  repeat case_bool_decide; try done;
  try (f_equal; apply Qc_is_canon);
  unfold Qclt, Qcle in *; lra.

(** ** Reading the connection trace *)

(** The connect requests of a trace. *)
Definition connects (tr : list event) : list (string * string) :=
  omap (fun e => match e with EConnect s p => Some (s, p) | _ => None end) tr.

(** What the loop of [connect_to_wlan] does after a poll that found the
    link not ready. *)
Definition retry_block : list event :=
  [EIsConnected false] ++ flasher 20 20 ++ [ESleep 5].

(** Every poll that found the link not ready is followed by a connect
    request before the next poll; [pending] tells that such a request is
    still due. *)
Fixpoint reissued (pending : bool) (tr : list event) : bool :=
  match tr with
  | [] => true
  | EIsConnected answer :: rest =>
      if pending then false else reissued (negb answer) rest
  | EConnect _ _ :: rest => reissued false rest
  | _ :: rest => reissued pending rest
  end.

(** The specification's reading of the retry loop: whenever the function
    returns, each failed poll of its trace was answered by a new connect
    request. *)
Definition reissues_on_timeout (isconnected : nat -> bool) (ssid password : string)
  : Prop :=
  forall fuel retry_count tr,
    connect_to_wlan fuel isconnected ssid password = Some (retry_count, tr) ->
    reissued false tr = true.

(** A link that is ready at the second poll. *)
Definition ready_at_second_poll (k : nat) : bool := bool_decide (1 <= k)%nat.

(** ** Reading hexadecimal back *)

(** The value of a lowercase hexadecimal digit. *)
Definition hex_value (c : ascii) : option N :=
  let n := N_of_ascii c in
  if (48 <=? n)%N && (n <=? 57)%N then Some (n - 48)%N
  else if (97 <=? n)%N && (n <=? 102)%N then Some (n - 87)%N
  else None.

(** The inverse of [rom_to_hex]: two digits per byte. *)
Fixpoint hex_to_rom (s : string) : option rom :=
  match s with
  | EmptyString => Some []
  | String hi (String lo rest) =>
      h ← hex_value hi;
      l ← hex_value lo;
      b ← Byte.of_N (16 * h + l);
      r ← hex_to_rom rest;
      Some (b :: r)
  | String _ EmptyString => None
  end.

(** The state of the indicator after a trace, if the trace drives it. *)
Definition led_after (tr : list event) : option bool :=
  last (omap (fun e => match e with ELed on => Some on | _ => None end) tr).


(** ** Readings by placement *)

(** The readings of the devices that [SENSOR_PLACEMENTS] places at
    [place], in bus order. *)
Definition readings_at (place : string) (w : world) (roms : list rom) : list Qc :=
  omap (fun r => if bool_decide (SENSOR_PLACEMENTS !! rom_to_hex r = Some place)
                 then w_read_temp w r else None) roms.

(** The pump-housing probe of [SENSOR_PLACEMENTS] and a probe the table
    does not know. *)
Definition pump_probe : rom := [x28; xfd; x93; xdf; x0d; x00; x00; x54].
Definition stray_probe : rom := [x28; x00; x00; x00; x00; x00; x00; x01].

(** A pass in which nothing fails and every device answers: the two pond
    probes read [ta] and [tb] degrees, any other device [other]. *)
Definition open_world (ta tb other : Z) : world :=
  {| w_convert_temp := Some tt;
     w_read_temp r :=
       if decide (rom_to_hex r = rom_to_hex pond_a) then Some (Qc_of_Z ta)
       else if decide (rom_to_hex r = rom_to_hex pond_b) then Some (Qc_of_Z tb)
       else Some (Qc_of_Z other);
     w_read_scratch _ := Some (scratchpad x7f);
     w_get_reading := Some (Qc_of_Z 27, Qc_of_Z 28, Qc_of_Z 26);
     w_time i := (1700000000 + Z.of_nat i)%Z;
     w_dumps := Some tt;
     w_sendto := Some tt |}.

(** ** Entries selected by [avg_from_json] *)

(** The entry passes the filter of [avg_from_json]. *)
Definition selected (condition_key : string) (condition_val : pyval) (entry : dict)
  : Prop :=
  py_eqb (default PNone (entry !! condition_key)) condition_val = true.

#[global] Typeclasses Opaque selected.

#[global] Instance selected_dec (condition_key : string) (condition_val : pyval)
    (entry : dict) : Decision (selected condition_key condition_val entry) :=
  decide (py_eqb (default PNone (entry !! condition_key)) condition_val = true).

(** ** Reading the trace of the loop *)

(** The arguments of the [time.sleep] calls of a trace, in seconds. *)
Definition sleeps (tr : list event) : list Z :=
  omap (fun e => match e with ESleep secs => Some secs | _ => None end) tr.

(** Where the datagrams of a trace were sent. *)
Definition destinations (tr : list event) : list (string * Z) :=
  omap (fun e => match e with ESendto _ ip port => Some (ip, port) | _ => None end) tr.

(** What a trace printed. *)
Definition printed (tr : list event) : list dict :=
  omap (fun e => match e with EPrint d => Some d | _ => None end) tr.

(** No step of the pass raises. *)
Definition succeeds (roms : list rom) (w : world) : bool :=
  bool_decide (is_Some (w_convert_temp w) /\ is_Some (external_sensors w roms) /\
               is_Some (w_get_reading w) /\ is_Some (w_dumps w) /\
               is_Some (w_sendto w)).

(** ** Device discovery *)


(** * Properties *)

(** ** One pass of the loop, case by case *)

Lemma cycle_eq w roms s :
  seeded_together s ->
  cycle w roms s =
    match w_convert_temp w with
    | None => (add_out s [ELed false], None)
    | Some _ =>
      match sensed w roms with
      | None => (add_out s [ELed false; ESleepMs 750], None)
      | Some (ms, rd, a) =>
        let mx := new_max (c_max s) a in
        let mn := new_min (c_min s) a in
        let summ := summary_record a (Some mn) (Some mx) in
        let s1 evs := State (Some mx) (Some mn) summ (out s ++ [ELed false; ESleepMs 750; EPrint summ] ++ evs) in
        match w_dumps w with
        | None => (s1 [], None)
        | Some _ =>
          match w_sendto w with
          | None => (s1 [ELed true], None)
          | Some _ => (s1 [ELed true; ESendto (batch_of w (length roms) ms rd a mx mn) BROADCAST_IP 5007], Some tt)
          end
        end
      end
    end.
Proof.
  intros Hwf. destruct s as [cmax cmin summ0 tr]. unfold seeded_together in Hwf. simpl in Hwf.
  unfold cycle, sensed, add_out, batch_of, new_max, new_min, mbind, M_bind,
    lift, emit, gets, set_c_max, set_c_min, set_summary, mret, M_ret.
  simpl.
  destruct (w_convert_temp w) as [[]|]; [|reflexivity].
  destruct (external_sensors w roms) as [ms|]; simpl;
    [|by rewrite <- !(assoc_L (++))].
  destruct (w_get_reading w) as [rd|]; simpl;
    [|by rewrite <- !(assoc_L (++))].
  destruct (avg_from_json _ _ _ _) as [a|]; simpl;
    [|by rewrite <- !(assoc_L (++))].
  destruct cmax as [mx|]; simpl.
  - destruct Hwf as [[mn ->] _]; [done|].
    destruct (bool_decide (mx < a)); simpl;
      destruct (bool_decide (a < mn)); simpl;
      destruct (w_dumps w) as [[]|]; simpl;
      try destruct (w_sendto w) as [[]|]; simpl;
      by rewrite <- !(assoc_L (++)).
  - destruct (w_dumps w) as [[]|]; simpl;
      try destruct (w_sendto w) as [[]|]; simpl.
    all: destruct cmin as [mn|]; [destruct Hwf as [_ [? ?]]; done|].
    all: by rewrite <- !(assoc_L (++)).
Qed.

(** ** Device measurements *)

Lemma measurement_Some w i r d :
  measurement w i r = Some d ->
  exists t res,
    w_read_temp w r = Some t /\ get_resolution w r = Some res /\
    d !! "type" = Some (PStr "Hardware") /\
    d !! "value" = Some (PNum t) /\
    d !! "sensor" = Some (PStr (rom_to_hex r)) /\
    d !! "location" = Some (PStr (py_str (SENSOR_PLACEMENTS !! rom_to_hex r))) /\
    d !! "resolution_raw" = Some (PNum (Qc_of_Z res)) /\
    d !! "resolution_bits" = Some (PNum (Qc_of_Z (res * 9 + 9))) /\
    d !! "alarm" =
      Some (PBool (bool_decide (t < LOW_ALARM_TEMP) || bool_decide (HIGH_ALARM_TEMP < t))).
Proof.
  unfold measurement. intros H.
  destruct (w_read_temp w r) as [t|]; [simpl in H|done].
  destruct (get_resolution w r) as [res|]; [simpl in H|done].
  injection H as <-. exists t, res.
  repeat split; try reflexivity.
  by destruct (bool_decide (t < LOW_ALARM_TEMP) || bool_decide (HIGH_ALARM_TEMP < t)).
Qed.

Lemma external_sensors_from_Forall2 w start roms ms :
  external_sensors_from w start roms = Some ms ->
  Forall2 (fun r d => exists i, measurement w i r = Some d) roms ms.
Proof.
  revert start ms. induction roms as [|r roms IH]; intros start ms H; simpl in H.
  - injection H as <-. constructor.
  - destruct (measurement w start r) as [d|] eqn:Hd; [simpl in H|done].
    destruct (external_sensors_from w (S start) roms) as [ms'|] eqn:Hms;
      [simpl in H|done].
    injection H as <-. constructor; eauto.
Qed.

Lemma external_sensors_Forall2 w roms ms :
  external_sensors w roms = Some ms ->
  Forall2 (fun r d => exists i, measurement w i r = Some d) roms ms.
Proof. apply external_sensors_from_Forall2. Qed.

(** ** The average *)

Lemma py_eqb_PStr (o : option pyval) (g : string) :
  py_eqb (default PNone o) (PStr g) = true <-> o = Some (PStr g).
Proof.
  destruct o as [[|[]|q|s]|]; simpl; unfold py_eqb; simpl;
    rewrite ?bool_decide_eq_true; split; intros H; try done;
    by simplify_eq.
Qed.

Lemma py_sum_PNum_from (acc : Qc) (vs : list Qc) :
  foldl (fun acc v => a ← acc; x ← py_num v; Some (a + x)) (Some acc) (PNum <$> vs)
  = Some (acc + sum_list vs).
Proof.
  revert acc. induction vs as [|v vs IH]; intros acc; simpl.
  - by rewrite Qcplus_0_r.
  - rewrite IH. by rewrite Qcplus_assoc.
Qed.

Lemma py_sum_PNum (vs : list Qc) : py_sum (PNum <$> vs) = Some (sum_list vs).
Proof. unfold py_sum. rewrite py_sum_PNum_from. by rewrite Qcplus_0_l. Qed.

Lemma matching_values (g : string) (ms : list dict) :
  Forall (fun m : dict => exists v, m !! "value" = Some (PNum v)) ms ->
  mapM (fun entry : dict => entry !! "value")
    (filter (fun entry : dict =>
               py_eqb (default PNone (entry !! "location")) (PStr g) = true) ms)
  = Some (PNum <$> group_values g ms).
Proof.
  induction 1 as [|m ms [v Hv] _ IH]; [done|].
  rewrite filter_cons. unfold group_values. simpl. fold (group_values g ms).
  destruct (decide (py_eqb _ _ = true)) as [Heq|Hne].
  - apply py_eqb_PStr in Heq. rewrite bool_decide_eq_true_2 by done.
    unfold field. simpl. rewrite Hv. simpl. by rewrite IH.
  - rewrite py_eqb_PStr in Hne. by rewrite bool_decide_eq_false_2.
Qed.

Lemma avg_from_json_mean (g : string) (ms : list dict) :
  Forall (fun m : dict => exists v, m !! "value" = Some (PNum v)) ms ->
  avg_from_json ms "value" "location" (PStr g) = Some (mean (group_values g ms)).
Proof.
  intros Hms. unfold avg_from_json. rewrite (matching_values g ms Hms). simpl.
  destruct (group_values g ms) as [|v vs] eqn:Hvs; [done|].
  rewrite <- Hvs at 1. rewrite py_sum_PNum, Hvs. simpl.
  by rewrite length_fmap.
Qed.

Lemma measurements_have_value w roms ms :
  external_sensors w roms = Some ms ->
  Forall (fun m : dict => exists v, m !! "value" = Some (PNum v)) ms.
Proof.
  intros H%external_sensors_Forall2.
  induction H as [|r d roms ms [i Hd] _ IH]; constructor; [|done].
  apply measurement_Some in Hd as (t & res & _ & _ & _ & Hv & _). eauto.
Qed.

Lemma measurements_are_hardware w roms ms :
  external_sensors w roms = Some ms ->
  Forall (fun m : dict => m !! "type" = Some (PStr "Hardware")) ms.
Proof.
  intros H%external_sensors_Forall2.
  induction H as [|r d roms ms [i Hd] _ IH]; constructor; [|done].
  by apply measurement_Some in Hd as (t & res & _ & _ & Hty & _).
Qed.

Lemma external_sensors_length w roms ms :
  external_sensors w roms = Some ms -> length ms = length roms.
Proof. intros H%external_sensors_Forall2. symmetry. by eapply Forall2_length. Qed.

(** The onboard record is not part of the pond group, and the average is
    always defined once the sensors have answered. *)
Lemma sensed_eq w roms :
  sensed w roms =
    ms ← external_sensors w roms;
    rd ← w_get_reading w;
    Some (ms, rd, mean (group_values "Pond" ms)).
Proof.
  unfold sensed. destruct (external_sensors w roms) as [ms|] eqn:Hms; [simpl|done].
  destruct (w_get_reading w) as [rd|]; [simpl|done].
  rewrite avg_from_json_mean.
  - simpl. unfold group_values. rewrite omap_app. simpl.
    rewrite bool_decide_eq_false_2 by (by intros [=]).
    by rewrite (right_id_L [] (++)).
  - apply Forall_app. split; [by eapply measurements_have_value|].
    constructor; [|done]. by eexists.
Qed.

(** ** What a batch reports *)

Lemma typed_value_skip (ty : string) (ms rest : list dict) :
  ty ≠ "Hardware" ->
  Forall (fun m : dict => m !! "type" = Some (PStr "Hardware")) ms ->
  typed_value ty (ms ++ rest) = typed_value ty rest.
Proof.
  intros Hty Hms. unfold typed_value. rewrite filter_app.
  replace (filter _ ms) with (@nil dict); [done|].
  induction Hms as [|m ms Hm _ IH]; [done|].
  rewrite filter_cons_False; [done|]. rewrite Hm. congruence.
Qed.

Lemma batch_of_reports w n ms rd a mx mn :
  Forall (fun m : dict => m !! "type" = Some (PStr "Hardware")) ms ->
  reports (batch_of w n ms rd a mx mn) a mn mx.
Proof.
  intros Hms. unfold reports, batch_of.
  rewrite !typed_value_skip by done.
  repeat split; try reflexivity.
  exists (summary_record a (Some mn) (Some mx)).
  repeat split; try reflexivity.
  by rewrite last_app.
Qed.

Lemma reports_functional b a mn mx a' mn' mx' :
  reports b a mn mx -> reports b a' mn' mx' -> a = a' /\ mn = mn' /\ mx = mx'.
Proof.
  intros (Ha & Hmn & Hmx & _) (Ha' & Hmn' & Hmx' & _).
  repeat split; congruence.
Qed.

(** ** Order facts for the running extrema *)

Lemma new_min_le_avg cmin a : new_min cmin a ≤ a.
Proof.
  destruct cmin as [mn|]; simpl; [|apply Qcle_refl].
  case_bool_decide as H; [apply Qcle_refl|]. by apply Qcnot_lt_le.
Qed.

Lemma new_max_ge_avg cmax a : a ≤ new_max cmax a.
Proof.
  destruct cmax as [mx|]; simpl; [|apply Qcle_refl].
  case_bool_decide as H; [apply Qcle_refl|]. by apply Qcnot_lt_le.
Qed.

Lemma new_min_le_old mn a : new_min (Some mn) a ≤ mn.
Proof.
  simpl. case_bool_decide as H; [by apply Qclt_le_weak|apply Qcle_refl].
Qed.

Lemma new_max_ge_old mx a : mx ≤ new_max (Some mx) a.
Proof.
  simpl. case_bool_decide as H; [by apply Qclt_le_weak|apply Qcle_refl].
Qed.

(** ** The loop *)

Lemma main_loop_cons roms w ws s :
  main_loop roms (w :: ws) s =
  main_loop roms ws (add_out (cycle w roms s).1 [ESleep LOOP_SLEEP_SECS]).
Proof. reflexivity. Qed.

Lemma main_loop_app roms ws1 ws2 s :
  (main_loop roms (ws1 ++ ws2) s).1 =
  (main_loop roms ws2 (main_loop roms ws1 s).1).1.
Proof.
  revert s. induction ws1 as [|w ws1 IH]; intros s; [done|].
  simpl app. by rewrite !main_loop_cons, IH.
Qed.

Lemma main_loop_returns roms ws s : (main_loop roms ws s).2 = Some tt.
Proof.
  revert s. induction ws as [|w ws IH]; intros s; [done|].
  by rewrite main_loop_cons.
Qed.

Lemma run_snoc roms ws w :
  run roms (ws ++ [w]) =
  add_out (cycle w roms (run roms ws)).1 [ESleep LOOP_SLEEP_SECS].
Proof. unfold run. by rewrite main_loop_app. Qed.

Lemma run_app roms ws1 ws2 :
  run roms (ws1 ++ ws2) = (main_loop roms ws2 (run roms ws1)).1.
Proof. unfold run. by rewrite main_loop_app. Qed.

(** The passes of the loop keep any property of the state that one guarded
    pass followed by the sleep keeps. *)
Lemma main_loop_invariant (I : state -> Prop) roms :
  (forall w s, I s -> I (add_out (cycle w roms s).1 [ESleep LOOP_SLEEP_SECS])) ->
  forall ws s, I s -> I (main_loop roms ws s).1.
Proof.
  intros Hstep ws. induction ws as [|w ws IH]; intros s Hs; [done|].
  rewrite main_loop_cons. by apply IH, Hstep.
Qed.

Lemma cycle_pass w roms s :
  seeded_together s -> pass w roms s (cycle w roms s).1 (cycle w roms s).2.
Proof.
  intros Hs. rewrite (cycle_eq w roms s Hs).
  destruct (w_convert_temp w) as [[]|] eqn:Hc;
    [|by constructor; [left|repeat constructor]].
  destruct (sensed w roms) as [[[ms rd] a]|] eqn:Hsen;
    [|by constructor; [right|repeat constructor]].
  destruct (w_dumps w) as [[]|] eqn:Hd; simpl;
    [|by eapply pass_lost; eauto; repeat constructor].
  destruct (w_sendto w) as [[]|] eqn:Hsd; simpl;
    [|by eapply pass_lost; eauto; repeat constructor].
  by apply (pass_sent w roms s ms rd a
              [ELed false; ESleepMs 750; EPrint _; ELed true]);
    repeat constructor.
Qed.

Lemma sent_batches_app tr1 tr2 :
  sent_batches (tr1 ++ tr2) = sent_batches tr1 ++ sent_batches tr2.
Proof. apply omap_app. Qed.

Lemma sent_batches_quiet evs : Forall quiet_event evs -> sent_batches evs = [].
Proof. induction 1 as [|[] evs He _ IH]; done. Qed.

Lemma pass_seeded w roms s s' r :
  pass w roms s s' r -> seeded_together s -> seeded_together s'.
Proof.
  destruct 1; unfold seeded_together; simpl; [done|..]; intros _; by split.
Qed.

Lemma init_seeded : seeded_together init_state.
Proof. unfold seeded_together. simpl. split; intros [? [=]]. Qed.

Lemma run_seeded roms ws : seeded_together (run roms ws).
Proof.
  apply (main_loop_invariant seeded_together); [|apply init_seeded].
  intros w s Hs. eapply (pass_seeded w roms s _ _ (cycle_pass w roms s Hs)) in Hs.
  exact Hs.
Qed.

Lemma sensed_Some w roms ms rd a :
  sensed w roms = Some (ms, rd, a) ->
  external_sensors w roms = Some ms /\ w_get_reading w = Some rd /\
  a = mean (group_values "Pond" ms).
Proof.
  rewrite sensed_eq.
  destruct (external_sensors w roms) as [ms'|]; [simpl|done].
  destruct (w_get_reading w) as [rd'|]; [simpl|done].
  by intros [= -> -> <-].
Qed.

(** Every batch that was sent satisfies what each pass guarantees for the
    batch it builds. *)
Lemma sent_batches_Forall (P : list dict -> Prop) roms :
  (forall w s ms rd,
     seeded_together s -> external_sensors w roms = Some ms ->
     let a := mean (group_values "Pond" ms) in
     P (batch_of w (length roms) ms rd a (new_max (c_max s) a) (new_min (c_min s) a))) ->
  forall ws, Forall P (sent_batches (out (run roms ws))).
Proof.
  intros HP ws.
  cut (seeded_together (run roms ws) /\ Forall P (sent_batches (out (run roms ws))));
    [by intros [_ ?]|].
  apply (main_loop_invariant
           (fun s => seeded_together s /\ Forall P (sent_batches (out s))));
    [|split; [apply init_seeded|constructor]].
  intros w s [Hs HF]. pose proof (cycle_pass w roms s Hs) as Hp.
  split; [by apply (pass_seeded _ _ _ _ _ Hp)|].
  simpl. rewrite sent_batches_app. simpl. rewrite (right_id_L [] (++)).
  destruct Hp as [evs _ Hev|ms rd a evs _ _ _ Hev|ms rd a evs _ Hsen _ _ Hev];
    simpl; rewrite !sent_batches_app, (sent_batches_quiet _ Hev),
             ?(right_id_L [] (++)); try done.
  apply Forall_app. split; [done|]. constructor; [|done].
  apply sensed_Some in Hsen as (Hms & _ & ->). by apply HP.
Qed.

Lemma mean_mul_length (vs : list Qc) :
  mean vs * Qc_of_Z (Z.of_nat (length vs)) = sum_list vs.
Proof.
  destruct vs as [|v vs]; [apply Qcmult_0_l|].
  unfold mean. apply test_field.
  rewrite <- Z2Qc_inj_0. intros H%Z2Qc_inj. simpl in H. lia.
Qed.

(** ** Claims *)

(** Every batch that is sent reports the mean of its pond measurements. *)
Lemma sent_batches_report_mean (roms : list rom) (ws : list world) :
  Forall (fun b => exists a mn mx,
            reports b a mn mx /\
            let vs := group_values "Pond" (take (length roms) b) in
            a = mean vs /\
            a * Qc_of_Z (Z.of_nat (length vs)) = sum_list vs /\
            (vs = [] -> a = 0))
    (sent_batches (out (run roms ws))).
Proof.
  apply sent_batches_Forall. intros w s ms rd Hs Hms a.
  exists a, (new_min (c_min s) a), (new_max (c_max s) a).
  split; [eapply batch_of_reports, measurements_are_hardware, Hms|].
  unfold batch_of. rewrite take_app_length' by (symmetry; by eapply external_sensors_length).
  simpl. split; [done|]. split; [apply mean_mul_length|].
  subst a. by intros ->.
Qed.

(** The call of [avg_from_json] in [main]: on the device measurements
    followed by the onboard record it returns the mean of the pond
    measurements. *)
Lemma measures_average w roms ms rd :
  external_sensors w roms = Some ms ->
  avg_from_json (ms ++ [onboard_record w (length roms) rd]) "value" "location"
    (PStr "Pond")
  = Some (mean (group_values "Pond" ms)).
Proof.
  intros Hms. rewrite avg_from_json_mean.
  - unfold group_values. rewrite omap_app. simpl.
    rewrite bool_decide_eq_false_2 by (by intros [=]).
    by rewrite (right_id_L [] (++)).
  - apply Forall_app. split; [by eapply measurements_have_value|].
    constructor; [|done]. by eexists.
Qed.

(** A pass in which the bus and the onboard sensor answer: the state it
    leaves, and the whole of it when the encoder and the transport go
    through as well. *)
Lemma cycle_aggregates w roms s ms rd :
  seeded_together s ->
  w_convert_temp w = Some tt -> external_sensors w roms = Some ms ->
  w_get_reading w = Some rd ->
  let a := mean (group_values "Pond" ms) in
  let mx := new_max (c_max s) a in
  let mn := new_min (c_min s) a in
  let summ := summary_record a (Some mn) (Some mx) in
  c_max (cycle w roms s).1 = Some mx /\
  c_min (cycle w roms s).1 = Some mn /\
  summary (cycle w roms s).1 = summ /\
  (w_dumps w = Some tt -> w_sendto w = Some tt ->
   cycle w roms s =
     (State (Some mx) (Some mn) summ
        (out s ++ [ELed false; ESleepMs 750; EPrint summ; ELed true;
                   ESendto (batch_of w (length roms) ms rd a mx mn) BROADCAST_IP 5007]),
      Some tt)).
Proof.
  intros Hs Hc Hms Hrd a mx mn summ.
  rewrite (cycle_eq w roms s Hs), Hc, sensed_eq, Hms, Hrd. simpl.
  destruct (w_dumps w) as [[]|]; [destruct (w_sendto w) as [[]|]|]; simpl;
    repeat split; done.
Qed.

(** C1: in every pass in which the bus and the onboard sensor answer, the
    group average that [main] computes with [avg_from_json] is the
    arithmetic mean of the values of that pass's device measurements
    located at "Pond": multiplied by their number it gives their sum, and
    it is 0, returned without an exception, when no measurement is located
    there.  It is the average of the summary record the pass stores and,
    when the pass sends its batch, of the avg_temp and summary records of
    that batch. *)
Theorem average_is_group_mean (roms : list rom) (ws : list world) (w : world)
    (ms : list dict) (rd : Qc * Qc * Qc) :
  let s := run roms ws in
  let s' := (cycle w roms s).1 in
  let vs := group_values "Pond" ms in
  w_convert_temp w = Some tt -> external_sensors w roms = Some ms ->
  w_get_reading w = Some rd ->
  exists a,
    avg_from_json (ms ++ [onboard_record w (length roms) rd]) "value" "location"
      (PStr "Pond") = Some a /\
    a = mean vs /\
    a * Qc_of_Z (Z.of_nat (length vs)) = sum_list vs /\
    (vs = [] -> a = 0) /\
    summary s' !! "type" = Some (PStr "summary") /\
    field "avg" (summary s') = Some a /\
    (w_dumps w = Some tt -> w_sendto w = Some tt ->
     exists b mn mx,
       sent_batches (out s') = sent_batches (out s) ++ [b] /\
       take (length roms) b = ms /\ reports b a mn mx).
Proof.
  intros s s' vs Hc Hms Hrd. exists (mean vs).
  destruct (cycle_aggregates w roms s ms rd (run_seeded roms ws) Hc Hms Hrd)
    as (_ & _ & Hsumm & Hsent).
  split; [by apply measures_average|]. split; [done|].
  split; [apply mean_mul_length|]. split; [by intros ->|].
  subst s'. rewrite Hsumm. split; [reflexivity|]. split; [reflexivity|].
  intros Hd Hsd. rewrite (Hsent Hd Hsd). cbn [fst out].
  eexists _, _, _. rewrite sent_batches_app. split; [reflexivity|].
  split; [|eapply batch_of_reports, measurements_are_hardware, Hms].
  unfold batch_of.
  by rewrite take_app_length' by (symmetry; by eapply external_sensors_length).
Qed.

Lemma average_is_group_mean_witness :
  let w := pond_world 19 26 x7f in
  exists ms a,
    external_sensors w pond_roms = Some ms /\
    avg_from_json
      (ms ++ [onboard_record w (length pond_roms) (Qc_of_Z 27, Qc_of_Z 28, Qc_of_Z 26)])
      "value" "location" (PStr "Pond") = Some a /\
    a = mean (group_values "Pond" ms) /\
    field "avg" (summary (cycle w pond_roms (run pond_roms [])).1) = Some a.
Proof.
  intros w.
  assert (is_Some (external_sensors w pond_roms)) as [ms Hms]
    by (apply (bool_decide_unpack _); vm_compute; exact I).
  destruct (average_is_group_mean pond_roms [] w ms
              (Qc_of_Z 27, Qc_of_Z 28, Qc_of_Z 26) eq_refl Hms eq_refl)
    as (a & Havg & Hmean & _ & _ & _ & Hfield & _).
  exists ms, a. split; [exact Hms|]. split; [exact Havg|].
  split; [exact Hmean|exact Hfield].
Defined.

Lemma low_below_high : LOW_ALARM_TEMP < HIGH_ALARM_TEMP.
Proof. reflexivity. Qed.

(** C2: the alarm field of the measurement built for a device is true
    exactly when the reading is below [LOW_ALARM_TEMP] or above
    [HIGH_ALARM_TEMP]; a reading equal to either threshold is not
    alarmed. *)
Theorem alarm_classification (w : world) (roms : list rom) (ms : list dict) :
  external_sensors w roms = Some ms ->
  Forall2 (fun r (m : dict) => exists v alarm,
             w_read_temp w r = Some v /\
             m !! "value" = Some (PNum v) /\
             m !! "alarm" = Some (PBool alarm) /\
             (alarm = true <-> v < LOW_ALARM_TEMP \/ HIGH_ALARM_TEMP < v) /\
             (v = LOW_ALARM_TEMP \/ v = HIGH_ALARM_TEMP -> alarm = false))
    roms ms.
Proof.
  intros H%external_sensors_Forall2.
  eapply Forall2_impl; [exact H|]. clear. intros r m [i Hm]. simpl.
  apply measurement_Some in Hm as (v & res & Hv & _ & _ & Hval & _ & _ & _ & _ & Hal).
  exists v, (bool_decide (v < LOW_ALARM_TEMP) || bool_decide (HIGH_ALARM_TEMP < v)).
  repeat split; try done.
  - rewrite orb_true_iff, !bool_decide_eq_true. done.
  - rewrite orb_true_iff, !bool_decide_eq_true. done.
  - intros [-> | ->]; apply orb_false_iff; split; apply bool_decide_eq_false_2.
    all: try (apply Qcle_not_lt, Qclt_le_weak, low_below_high).
    all: apply Qcle_not_lt, Qcle_refl.
Qed.

(** Every batch that is sent has the layout of the loop body. *)
Lemma sent_batches_ordered (roms : list rom) (ws : list world) :
  Forall (fun b => exists (ms : list dict) (onboard avg mx mn summ : dict),
            b = ms ++ [onboard; avg; mx; mn; summ] /\
            Forall2 (fun r (m : dict) =>
                       m !! "type" = Some (PStr "Hardware") /\
                       m !! "sensor" = Some (PStr (rom_to_hex r)) /\
                       is_Some (m !! "alarm")) roms ms /\
            onboard !! "location" = Some (PStr "onboard") /\
            onboard !! "sensor" = Some (PStr "default") /\
            avg !! "type" = Some (PStr "avg_temp") /\
            mx !! "type" = Some (PStr "max") /\
            mn !! "type" = Some (PStr "min") /\
            summ !! "type" = Some (PStr "summary") /\
            is_Some (field "avg" summ) /\ is_Some (field "min" summ) /\
            is_Some (field "max" summ))
    (sent_batches (out (run roms ws))).
Proof.
  apply sent_batches_Forall. intros w s ms rd Hs Hms a.
  eexists ms, _, _, _, _, _. split; [reflexivity|].
  split; [|by repeat split; try reflexivity; eexists].
  apply external_sensors_Forall2 in Hms.
  eapply Forall2_impl; [exact Hms|]. intros r m [i Hm]. simpl.
  apply measurement_Some in Hm as (v & res & _ & _ & Hty & _ & Hse & _ & _ & _ & Hal).
  by rewrite Hal.
Qed.




(** C6: in every batch that is sent, the summary record satisfies
    min <= avg <= max. *)
Theorem summary_min_avg_max (roms : list rom) (ws : list world) :
  Forall (fun b => exists a mn mx, reports b a mn mx /\ mn ≤ a /\ a ≤ mx)
    (sent_batches (out (run roms ws))).
Proof.
  apply sent_batches_Forall. intros w s ms rd Hs Hms a.
  exists a, (new_min (c_min s) a), (new_max (c_max s) a).
  split; [eapply batch_of_reports, measurements_are_hardware, Hms|].
  split; [apply new_min_le_avg|apply new_max_ge_avg].
Qed.

(** ** Monotonicity of the extrema *)

Lemma covers_widen s s' b :
  covers s b ->
  (forall cmn, c_min s = Some cmn -> exists cmn', c_min s' = Some cmn' /\ cmn' ≤ cmn) ->
  (forall cmx, c_max s = Some cmx -> exists cmx', c_max s' = Some cmx' /\ cmx ≤ cmx') ->
  covers s' b.
Proof.
  intros (a & mn & mx & cmn & cmx & Hr & Hmn & Hmx & Hle1 & Hle2) Hmin Hmax.
  destruct (Hmin _ Hmn) as (cmn' & ? & ?). destruct (Hmax _ Hmx) as (cmx' & ? & ?).
  exists a, mn, mx, cmn', cmx'.
  split; [done|]. split; [done|]. split; [done|].
  split; by eapply Qcle_trans.
Qed.

Lemma pass_widens_state w roms s s' r :
  pass w roms s s' r ->
  (forall cmn, c_min s = Some cmn -> exists cmn', c_min s' = Some cmn' /\ cmn' ≤ cmn) /\
  (forall cmx, c_max s = Some cmx -> exists cmx', c_max s' = Some cmx' /\ cmx ≤ cmx').
Proof.
  destruct 1; simpl; split; intros c Hc; try (exists c; split; [done|apply Qcle_refl]).
  all: rewrite Hc; eexists; split; [reflexivity|].
  all: first [apply new_min_le_old | apply new_max_ge_old].
Qed.

(** C4: over the batches sent in a run, in the order they were sent, every
    later batch reports a minimum no greater and a maximum no smaller than
    every earlier one (so in particular each batch against the one sent
    just before it): the extrema in the min, max and summary records are
    never reset. *)
Theorem extrema_monotone (roms : list rom) (ws : list world) :
  StronglySorted widens (sent_batches (out (run roms ws))).
Proof.
  cut (seeded_together (run roms ws) /\
       StronglySorted widens (sent_batches (out (run roms ws))) /\
       Forall (covers (run roms ws)) (sent_batches (out (run roms ws))));
    [by intros (_ & ? & _)|].
  apply (main_loop_invariant
           (fun s => seeded_together s /\
                     StronglySorted widens (sent_batches (out s)) /\
                     Forall (covers s) (sent_batches (out s))));
    [|split; [apply init_seeded|split; constructor]].
  intros w s (Hs & Hsorted & Hcov).
  pose proof (cycle_pass w roms s Hs) as Hp.
  destruct (pass_widens_state _ _ _ _ _ Hp) as [Hmin Hmax].
  assert (Forall (covers (cycle w roms s).1) (sent_batches (out s))) as Hcov'.
  { eapply Forall_impl; [exact Hcov|]. intros b Hb. by eapply covers_widen. }
  split; [exact (pass_seeded _ _ _ _ _ Hp Hs)|].
  change (StronglySorted widens
            (sent_batches (out (cycle w roms s).1 ++ [ESleep LOOP_SLEEP_SECS])) /\
          Forall (covers (cycle w roms s).1)
            (sent_batches (out (cycle w roms s).1 ++ [ESleep LOOP_SLEEP_SECS]))).
  rewrite sent_batches_app. simpl. rewrite (right_id_L [] (++)).
  revert Hcov'. clear Hmin Hmax.
  destruct Hp as [evs _ Hev|ms rd a evs _ _ _ Hev|ms rd a evs _ Hsen _ _ Hev];
    simpl; rewrite !sent_batches_app, (sent_batches_quiet _ Hev),
             ?(right_id_L [] (++));
    intros Hcov'; try done.
  apply sensed_Some in Hsen as (Hms & _ & _).
  pose proof (batch_of_reports w (length roms) ms rd a (new_max (c_max s) a)
                (new_min (c_min s) a) (measurements_are_hardware _ _ _ Hms)) as Hr.
  split.
  - apply StronglySorted_app. split; [|split; [done|repeat constructor]].
    intros b1 b2 Hb1 ->%list_elem_of_singleton.
    rewrite Forall_forall in Hcov'.
    destruct (Hcov' _ Hb1) as (a1 & mn1 & mx1 & cmn & cmx & Hr1 & [= <-] & [= <-] & ? & ?).
    by exists a1, mn1, mx1, a, (new_min (c_min s) a), (new_max (c_max s) a).
  - apply Forall_app. split; [done|]. constructor; [|done].
    exists a, (new_min (c_min s) a), (new_max (c_max s) a),
      (new_min (c_min s) a), (new_max (c_max s) a).
    split; [done|]. split; [done|]. split; [done|]. split; apply Qcle_refl.
Qed.

(** ** The extrema are those of the cycle averages *)

Lemma min_list_snoc (vs : list Qc) (a : Qc) :
  min_list (vs ++ [a]) = Some (new_min (min_list vs) a).
Proof.
  induction vs as [|v vs IH]; [done|].
  simpl. rewrite IH. destruct (min_list vs) as [m|]; simpl; qc_order.
Qed.

Lemma max_list_snoc (vs : list Qc) (a : Qc) :
  max_list (vs ++ [a]) = Some (new_max (max_list vs) a).
Proof.
  induction vs as [|v vs IH]; [done|].
  simpl. rewrite IH. destruct (max_list vs) as [m|]; simpl; qc_order.
Qed.

(** [min_list] is the least element of the list. *)
Lemma min_list_least (vs : list Qc) (m : Qc) :
  min_list vs = Some m -> m ∈ vs /\ Forall (fun v => m ≤ v) vs.
Proof.
  revert m. induction vs as [|v vs IH]; intros m; [done|]. simpl.
  destruct (min_list vs) as [m'|] eqn:Hm.
  - destruct (IH m' eq_refl) as [Hin Hall]. intros [= <-].
    case_bool_decide as Hlt.
    + split; [left|]. constructor; [apply Qcle_refl|].
      eapply Forall_impl; [exact Hall|]. intros x Hx. simpl in Hx.
      eapply Qcle_trans; [apply Qclt_le_weak, Hlt|exact Hx].
    + split; [by right|]. constructor; [by apply Qcnot_lt_le|done].
  - intros [= <-]. destruct vs as [|v' vs]; [|simpl in Hm; by destruct (min_list vs)].
    split; [left|]. constructor; [apply Qcle_refl|done].
Qed.

(** [max_list] is the greatest element of the list. *)
Lemma max_list_greatest (vs : list Qc) (m : Qc) :
  max_list vs = Some m -> m ∈ vs /\ Forall (fun v => v ≤ m) vs.
Proof.
  revert m. induction vs as [|v vs IH]; intros m; [done|]. simpl.
  destruct (max_list vs) as [m'|] eqn:Hm.
  - destruct (IH m' eq_refl) as [Hin Hall]. intros [= <-].
    case_bool_decide as Hlt.
    + split; [left|]. constructor; [apply Qcle_refl|].
      eapply Forall_impl; [exact Hall|]. intros x Hx. simpl in Hx.
      eapply Qcle_trans; [exact Hx|apply Qclt_le_weak, Hlt].
    + split; [by right|]. constructor; [by apply Qcnot_lt_le|done].
  - intros [= <-]. destruct vs as [|v' vs]; [|simpl in Hm; by destruct (max_list vs)].
    split; [left|]. constructor; [apply Qcle_refl|done].
Qed.

Lemma cycle_average_None_quiet roms w :
  w_convert_temp w = None \/ sensed w roms = None -> cycle_average roms w = None.
Proof.
  unfold cycle_average, cycle_measurements. rewrite sensed_eq.
  destruct (w_convert_temp w) as [[]|]; simpl; [|done].
  destruct (external_sensors w roms); simpl; [|done].
  destruct (w_get_reading w); simpl; [|done]. by intros [|].
Qed.

Lemma cycle_average_Some roms w ms rd a :
  w_convert_temp w = Some tt -> sensed w roms = Some (ms, rd, a) ->
  cycle_average roms w = Some a.
Proof.
  unfold cycle_average, cycle_measurements. intros -> (-> & -> & ->)%sensed_Some.
  done.
Qed.

Lemma cycle_average_inv roms w a :
  cycle_average roms w = Some a ->
  exists ms rd, w_convert_temp w = Some tt /\ sensed w roms = Some (ms, rd, a).
Proof.
  unfold cycle_average, cycle_measurements. rewrite sensed_eq.
  destruct (w_convert_temp w) as [[]|]; simpl; [|done].
  destruct (external_sensors w roms) as [ms|]; simpl; [|done].
  destruct (w_get_reading w) as [rd|]; simpl; [|done].
  intros [= <-]. by exists ms, rd.
Qed.

Lemma run_extrema roms ws :
  c_min (run roms ws) = min_list (omap (cycle_average roms) ws) /\
  c_max (run roms ws) = max_list (omap (cycle_average roms) ws).
Proof.
  induction ws as [|w ws [IHmin IHmax]] using rev_ind; [done|].
  rewrite run_snoc, omap_app. simpl.
  pose proof (cycle_pass w roms (run roms ws) (run_seeded roms ws)) as Hp.
  destruct Hp as [evs Hq _|ms rd a evs Hc Hsen _ _|ms rd a evs Hc Hsen _ _ _]; simpl.
  - rewrite (cycle_average_None_quiet _ _ Hq). simpl.
    by rewrite (right_id_L [] (++)).
  - rewrite (cycle_average_Some _ _ _ _ _ Hc Hsen). simpl.
    by rewrite min_list_snoc, max_list_snoc, IHmin, IHmax.
  - rewrite (cycle_average_Some _ _ _ _ _ Hc Hsen). simpl.
    by rewrite min_list_snoc, max_list_snoc, IHmin, IHmax.
Qed.

(** C5, as the code has it: after every pass the accumulated minimum and
    maximum are the least and the greatest of the group averages of all
    passes so far that got as far as the aggregation (the average of a
    pass being the mean of its pond measurements, 0 if there are none),
    and a batch sent by that pass reports exactly these in its min, max
    and summary records. *)
Theorem extrema_over_cycle_averages (roms : list rom) (ws : list world) (w : world) :
  let avgs := omap (cycle_average roms) (ws ++ [w]) in
  c_min (run roms (ws ++ [w])) = min_list avgs /\
  c_max (run roms (ws ++ [w])) = max_list avgs /\
  exists new,
    sent_batches (out (run roms (ws ++ [w]))) =
      sent_batches (out (run roms ws)) ++ new /\
    Forall (fun b => exists a mn mx,
              reports b a mn mx /\ cycle_average roms w = Some a /\
              min_list avgs = Some mn /\ max_list avgs = Some mx) new.
Proof.
  intros avgs. destruct (run_extrema roms (ws ++ [w])) as [Hmin Hmax].
  split; [done|]. split; [done|]. fold avgs in Hmin, Hmax.
  revert Hmin Hmax. rewrite run_snoc. simpl.
  pose proof (cycle_pass w roms (run roms ws) (run_seeded roms ws)) as Hp.
  destruct Hp as [evs _ Hev|ms rd a evs _ _ _ Hev|ms rd a evs Hc Hsen _ _ Hev];
    simpl; intros Hmin Hmax;
    rewrite !sent_batches_app, (sent_batches_quiet _ Hev); simpl;
    rewrite ?(right_id_L [] (++)).
  - exists []. by rewrite (right_id_L [] (++)).
  - exists []. by rewrite (right_id_L [] (++)).
  - eexists. split; [reflexivity|]. constructor; [|done].
    exists a, (new_min (c_min (run roms ws)) a), (new_max (c_max (run roms ws)) a).
    split; [|by rewrite (cycle_average_Some _ _ _ _ _ Hc Hsen), <- Hmin, <- Hmax].
    apply sensed_Some in Hsen as (Hms & _ & _).
    eapply batch_of_reports, measurements_are_hardware, Hms.
Qed.

(** C5 as stated fails: with the two pond probes reading 19 and 26 degrees
    in the first pass, the min record of the batch holds their average
    22.5, not the least measurement 19. *)
Lemma extrema_not_over_measurements :
  reported_min pond_roms [pond_world 19 26 x7f]
  ≠ min_list (measured_values pond_roms [pond_world 19 26 x7f]).
Proof.
  intros H. apply (f_equal (fmap this)) in H. vm_compute in H. discriminate.
Qed.

(** ** Failing passes *)

Lemma pass_raised_quiet w roms s s' :
  pass w roms s s' None ->
  exists evs, out s' = out s ++ evs /\ Forall quiet_event evs.
Proof. inversion 1; subst; simpl; eauto. Qed.

Lemma pass_bus_failure w roms s s' r :
  pass w roms s s' r ->
  w_convert_temp w = None \/ external_sensors w roms = None \/ w_get_reading w = None ->
  c_max s' = c_max s /\ c_min s' = c_min s.
Proof.
  destruct 1 as [evs _ _|ms rd a evs Hc Hsen _ _|ms rd a evs Hc Hsen _ _ _];
    [done|..]; apply sensed_Some in Hsen as (Hms & Hrd & _);
    intros [?|[?|?]]; congruence.
Qed.

(** C7: when the body of a pass raises, whatever the step, no batch is
    handed to the transport in that pass, all the pass has done outside is
    switching the indicator, waiting for the conversion and possibly
    printing the summary, the exception does not leave the loop, which
    sleeps and goes on with the remaining passes; and when it is the bus
    (the conversion command, a device read) or the onboard reading that
    raised, the extrema are those of before the pass. *)
Theorem failed_cycle_is_silent (roms : list rom) (ws0 : list world) (w : world)
    (ws : list world) :
  let s := run roms ws0 in
  let s' := (cycle w roms s).1 in
  (cycle w roms s).2 = None ->
  sent_batches (out s') = sent_batches (out s) /\
  (exists evs, out s' = out s ++ evs /\ Forall quiet_event evs) /\
  main_loop roms (w :: ws) s =
    main_loop roms ws (add_out s' [ESleep LOOP_SLEEP_SECS]) /\
  (main_loop roms (w :: ws) s).2 = Some tt /\
  (w_convert_temp w = None \/ external_sensors w roms = None \/
   w_get_reading w = None ->
   c_max s' = c_max s /\ c_min s' = c_min s).
Proof.
  intros s s' Hraise.
  pose proof (cycle_pass w roms s (run_seeded roms ws0)) as Hp.
  fold s' in Hp. rewrite Hraise in Hp.
  destruct (pass_raised_quiet _ _ _ _ Hp) as (evs & Hout & Hq).
  split; [by rewrite Hout, sent_batches_app, (sent_batches_quiet _ Hq),
            (right_id_L [] (++))|].
  split; [by exists evs|]. split; [apply main_loop_cons|].
  split; [apply main_loop_returns|]. by apply (pass_bus_failure _ _ _ _ _ Hp).
Qed.

Lemma failed_cycle_is_silent_witness :
  let roms := pond_roms in
  let s := run roms [pond_world 22 22 x7f] in
  let w := bus_fails (pond_world 30 30 x7f) in
  (cycle w roms s).2 = None /\
  sent_batches (out (cycle w roms s).1) = sent_batches (out s) /\
  c_max (cycle w roms s).1 = c_max s /\ c_min (cycle w roms s).1 = c_min s.
Proof.
  intros roms s w.
  assert ((cycle w roms s).2 = None) as Hraise by reflexivity.
  split; [exact Hraise|].
  pose proof (failed_cycle_is_silent pond_roms [pond_world 22 22 x7f]
                (bus_fails (pond_world 30 30 x7f)) [] Hraise)
    as (Hsent & _ & _ & _ & Hsame).
  split; [exact Hsent|]. apply Hsame. by left.
Defined.

(** ** Extrema kept from a pass whose batch was lost *)

Lemma later_batches_cover (a : Qc) roms ws s base :
  seeded_together s ->
  (exists cmn cmx, c_min s = Some cmn /\ c_max s = Some cmx /\ cmn ≤ a /\ a ≤ cmx) ->
  sent_batches (out s) = base ->
  exists later,
    sent_batches (out (main_loop roms ws s).1) = base ++ later /\
    Forall (fun b => exists a' mn mx, reports b a' mn mx /\ mn ≤ a /\ a ≤ mx) later.
Proof.
  intros Hs Hcov Hbase.
  apply (main_loop_invariant
    (fun s => seeded_together s /\
       (exists cmn cmx, c_min s = Some cmn /\ c_max s = Some cmx /\ cmn ≤ a /\ a ≤ cmx) /\
       exists later, sent_batches (out s) = base ++ later /\
         Forall (fun b => exists a' mn mx, reports b a' mn mx /\ mn ≤ a /\ a ≤ mx) later));
    [|split; [done|split; [done|]]; exists []; by rewrite (right_id_L [] (++))].
  clear s Hs Hcov Hbase.
  intros w s (Hs & (cmn & cmx & Hmn & Hmx & Hle1 & Hle2) & later & Hlater & HF).
  pose proof (cycle_pass w roms s Hs) as Hp.
  split; [exact (pass_seeded _ _ _ _ _ Hp Hs)|].
  assert (new_min (Some cmn) a ≤ a /\ a ≤ new_max (Some cmx) a) as _ by
    (split; [apply new_min_le_avg|apply new_max_ge_avg]).
  destruct Hp as [evs _ Hev|ms rd a' evs _ _ _ Hev|ms rd a' evs _ Hsen _ _ Hev];
    simpl; rewrite !sent_batches_app, (sent_batches_quiet _ Hev), ?Hmn, ?Hmx; simpl;
    rewrite ?(right_id_L [] (++)).
  - split; [by exists cmn, cmx|]. by exists later.
  - split; [|by exists later].
    eexists _, _. split; [reflexivity|]. split; [reflexivity|]. split; qc_order.
  - split.
    { eexists _, _. split; [reflexivity|]. split; [reflexivity|]. split; qc_order. }
    exists (later ++ [batch_of w (length roms) ms rd a'
                        (new_max (Some cmx) a') (new_min (Some cmn) a')]).
    split; [by rewrite Hlater, (assoc_L (++))|].
    apply Forall_app. split; [done|]. constructor; [|done].
    apply sensed_Some in Hsen as (Hms & _ & _).
    eexists _, _, _. split;
      [eapply batch_of_reports, measurements_are_hardware, Hms|].
    simpl. split; qc_order.
Qed.



(** The average 30 of the pass whose batch was lost is the maximum of the
    batch sent by the next pass, whose own average is 22. *)
Example lost_cycle_shows_in_next_batch :
  let ws := [pond_world 22 22 x7f; send_fails (pond_world 30 30 x7f);
             pond_world 22 22 x7f] in
  length (sent_batches (out (run pond_roms ws))) = 2%nat /\
  this <$> reported_max pond_roms ws = Some (30 # 1)%Q /\
  this <$> reported_min pond_roms ws = Some (22 # 1)%Q.
Proof. vm_compute. done. Qed.

Lemma alarm_classification_witness :
  exists ms,
    external_sensors (pond_world 19 26 x7f) pond_roms = Some ms /\
    Forall2 (fun r (m : dict) => exists v alarm,
               w_read_temp (pond_world 19 26 x7f) r = Some v /\
               m !! "value" = Some (PNum v) /\
               m !! "alarm" = Some (PBool alarm) /\
               (alarm = true <-> v < LOW_ALARM_TEMP \/ HIGH_ALARM_TEMP < v) /\
               (v = LOW_ALARM_TEMP \/ v = HIGH_ALARM_TEMP -> alarm = false))
      pond_roms ms.
Proof.
  assert (is_Some (external_sensors (pond_world 19 26 x7f) pond_roms))
    as [ms Hms] by (apply (bool_decide_unpack _); vm_compute; exact I).
  exists ms. split; [exact Hms|].
  exact (alarm_classification (pond_world 19 26 x7f) pond_roms ms Hms).
Defined.

(** The first end-to-end scenario of the specification: probes at 19 and
    26 degrees give the average 22.5 and are both alarmed. *)
Example scenario_two_probes :
  let b := default [] (head (sent_batches (out (run pond_roms [pond_world 19 26 x7f])))) in
  length b = 7%nat /\
  this <$> typed_value "avg_temp" b = Some (45 # 2)%Q /\
  (fun m : dict => m !! "alarm") <$> take 2 b =
    [Some (PBool true); Some (PBool true)].
Proof. vm_compute. done. Qed.

(** ** The resolution code *)

Lemma get_resolution_low_bits w r :
  get_resolution w r =
    scratch ← w_read_scratch w r;
    b ← scratch !! 4%nat;
    Some (Z.land (Z.of_N (Byte.to_N b)) 3).
Proof. reflexivity. Qed.

(** X5: whenever [get_resolution] returns, its result is one of 0, 1, 2
    and 3. *)
Lemma get_resolution_range w r res :
  get_resolution w r = Some res -> (0 <= res <= 3)%Z.
Proof.
  rewrite get_resolution_low_bits.
  destruct (w_read_scratch w r) as [scratch|]; [simpl|done].
  destruct (scratch !! 4%nat) as [b|]; [simpl|done].
  intros [= <-].
  pose proof (Z.land_ones (Z.of_N (Byte.to_N b)) 2 ltac:(lia)) as E.
  change (Z.ones 2) with 3%Z in E. change (2 ^ 2)%Z with 4%Z in E. rewrite E.
  pose proof (Z.mod_pos_bound (Z.of_N (Byte.to_N b)) 4 eq_refl). lia.
Qed.

(** X6: on a DS18B20 the five low bits of the configuration byte read 1, so
    the code answers 3 whatever the resolution the device is set to. *)
Lemma get_resolution_ds18b20 w r scratch b :
  w_read_scratch w r = Some scratch -> scratch !! 4%nat = Some b ->
  Z.land (Z.of_N (Byte.to_N b)) 31 = 31%Z ->
  get_resolution w r = Some 3%Z.
Proof.
  intros Hs Hb Hlow. rewrite get_resolution_low_bits, Hs. simpl. rewrite Hb. simpl.
  f_equal. change 3%Z with (Z.land 31 3). by rewrite Z.land_assoc, Hlow.
Qed.

(** The check byte of the scratchpad at the default 12-bit configuration and
    at the 9-bit one. *)
Example scratchpad_crc :
  last (scratchpad x7f) = Some x1c /\ last (scratchpad x1f) = Some x8c.
Proof. split; reflexivity. Qed.

(** C9, at a device set to 9 bits (configuration byte 0x1f, resolution code
    0): the code reads the two low bits of the byte instead of bits 5 and
    6, answers 3, and the measurement carries resolution_raw 3 and
    resolution_bits 36. *)
Theorem get_resolution_reads_low_bits :
  let w := pond_world 22 22 x1f in
  resolution_code (Z.of_N (Byte.to_N x1f)) = 0%Z /\
  get_resolution w pond_a = Some 3%Z /\
  exists m : dict,
    measurement w 0 pond_a = Some m /\
    m !! "resolution_raw" = Some (PNum (Qc_of_Z 3)) /\
    m !! "resolution_bits" = Some (PNum (Qc_of_Z 36)).
Proof.
  intros w. split; [reflexivity|]. split; [reflexivity|].
  destruct (measurement w 0 pond_a) as [m|] eqn:Hm; [|by vm_compute in Hm].
  exists m. split; [done|].
  apply measurement_Some in Hm as (t & res & _ & Hres & _ & _ & _ & _ & Hraw & Hbits & _).
  assert (res = 3%Z) as -> by (by injection Hres).
  by split.
Qed.

(** ** Connecting to the network *)

Lemma flasher_no_connect delay times : connects (flasher delay times) = [].
Proof.
  unfold flasher. induction (Z.to_nat times) as [|n IH]; [done|].
  simpl. exact IH.
Qed.

Lemma connects_app tr1 tr2 : connects (tr1 ++ tr2) = connects tr1 ++ connects tr2.
Proof. apply omap_app. Qed.

Lemma retry_blocks_no_connect n : connects (mjoin (replicate n retry_block)) = [].
Proof.
  induction n as [|n IH]; [done|].
  change (mjoin (replicate (S n) retry_block))
    with (retry_block ++ mjoin (replicate n retry_block)).
  rewrite connects_app, IH. unfold retry_block.
  by rewrite !connects_app, flasher_no_connect.
Qed.

Lemma wlan_wait_S fuel isconnected k retry_count tr :
  wlan_wait (S fuel) isconnected k retry_count tr =
    if isconnected k then Some (retry_count, tr ++ [EIsConnected true])
    else wlan_wait fuel isconnected (S k) (retry_count + 1) (tr ++ retry_block).
Proof. reflexivity. Qed.

Lemma wlan_wait_spec fuel isconnected k retry_count tr :
  match wlan_wait fuel isconnected k retry_count tr with
  | Some (retry_count', tr') =>
      exists n, (n < fuel)%nat /\ isconnected (k + n)%nat = true /\
        (forall j, (j < n)%nat -> isconnected (k + j)%nat = false) /\
        retry_count' = (retry_count + Z.of_nat n)%Z /\
        tr' = tr ++ mjoin (replicate n retry_block) ++ [EIsConnected true]
  | None => forall j, (j < fuel)%nat -> isconnected (k + j)%nat = false
  end.
Proof.
  revert k retry_count tr. induction fuel as [|fuel IH]; intros k rc tr.
  - intros j Hj. lia.
  - rewrite wlan_wait_S. destruct (isconnected k) eqn:Hk.
    + exists 0%nat. rewrite Nat.add_0_r, Z.add_0_r.
      split; [lia|]. split; [done|]. split; [intros j Hj; lia|done].
    + specialize (IH (S k) (rc + 1)%Z (tr ++ retry_block)).
      destruct (wlan_wait fuel isconnected (S k) (rc + 1) (tr ++ retry_block))
        as [[rc' tr']|].
      * destruct IH as (n & Hn & Hcon & Hbefore & -> & ->). exists (S n).
        split; [lia|]. split; [by rewrite <- Nat.add_succ_comm|].
        split; [|split; [lia|]].
        -- intros [|j] Hj; [by rewrite Nat.add_0_r|].
           rewrite <- Nat.add_succ_comm. apply Hbefore. lia.
        -- change (mjoin (replicate (S n) retry_block))
             with (retry_block ++ mjoin (replicate n retry_block)).
           by rewrite <- !(assoc_L (++)).
      * intros [|j] Hj; [by rewrite Nat.add_0_r|].
        rewrite <- Nat.add_succ_comm. apply IH. lia.
Qed.

(** C8, as the code has it: [connect_to_wlan] has no failure result; it
    returns exactly when a poll finds the link ready, which it does as soon
    as the link is ready at one of the polls it is given; the connect
    request is issued once, before the first poll, and each poll that finds
    the link not ready is followed by the retry pulse pattern and a five
    second sleep, not by a new connect request. *)
Theorem connect_to_wlan_polls_until_connected (fuel : nat) (isconnected : nat -> bool)
    (ssid password : string) :
  match connect_to_wlan fuel isconnected ssid password with
  | Some (retry_count, tr) =>
      exists n, (n < fuel)%nat /\ isconnected n = true /\
        (forall j, (j < n)%nat -> isconnected j = false) /\
        retry_count = (1 + Z.of_nat n)%Z /\
        tr = flasher 5 10 ++ [ESleep 3; EActive true; ESleep 2; EConnect ssid password]
             ++ mjoin (replicate n retry_block) ++ [EIsConnected true] /\
        connects tr = [(ssid, password)]
  | None => forall j, (j < fuel)%nat -> isconnected j = false
  end.
Proof.
  unfold connect_to_wlan.
  pose proof (wlan_wait_spec fuel isconnected 0 1
                (flasher 5 10 ++ [ESleep 3; EActive true; ESleep 2; EConnect ssid password]))
    as H.
  destruct (wlan_wait fuel isconnected 0 1 _) as [[rc tr]|]; [|exact H].
  destruct H as (n & Hn & Hcon & Hbefore & -> & ->). exists n.
  split; [done|]. split; [done|]. split; [done|]. split; [done|].
  split; [by rewrite <- !(assoc_L (++))|].
  rewrite !connects_app, flasher_no_connect, retry_blocks_no_connect. done.
Qed.

(** C8 as stated fails: when the link is ready at the second poll only, the
    function returns without having issued a connect request after the
    first, failed poll. *)
Lemma connect_not_reissued :
  ~ reissues_on_timeout ready_at_second_poll "ssid" "password".
Proof.
  intros H.
  specialize (H 2%nat 2%Z
    (flasher 5 10 ++ [ESleep 3; EActive true; ESleep 2; EConnect "ssid" "password"]
     ++ retry_block ++ [EIsConnected true]) eq_refl).
  vm_compute in H. discriminate.
Qed.

(** * Further properties of the code *)

(** ** Device addresses as text *)

Lemma hex_round_trip_byte (b : byte) :
  hex_value (hex_digit (Byte.to_N b / 16)) = Some (Byte.to_N b / 16)%N /\
  hex_value (hex_digit (Byte.to_N b mod 16)) = Some (Byte.to_N b mod 16)%N /\
  Byte.of_N (16 * (Byte.to_N b / 16) + Byte.to_N b mod 16) = Some b.
Proof. destruct b; vm_compute; done. Qed.

(** X1: the hexadecimal text of a device address determines the address:
    [hex_to_rom] reads back what [rom_to_hex] wrote, so two different
    addresses never share a sensor identifier. *)
Theorem rom_to_hex_round_trip (r : rom) :
  hex_to_rom (rom_to_hex r) = Some r /\
  forall r', rom_to_hex r = rom_to_hex r' -> r = r'.
Proof.
  assert (forall r, hex_to_rom (rom_to_hex r) = Some r) as Hrt.
  { clear r. induction r as [|b r IH]; [done|].
    destruct (hex_round_trip_byte b) as (Hhi & Hlo & Hb).
    change (rom_to_hex (b :: r))
      with (String (hex_digit (Byte.to_N b / 16))
                   (String (hex_digit (Byte.to_N b mod 16)) (rom_to_hex r))).
    cbn [hex_to_rom]. rewrite Hhi, Hlo. cbn [mbind option_bind].
    rewrite Hb. cbn [mbind option_bind]. by rewrite IH. }
  split; [apply Hrt|]. intros r' Heq.
  apply (inj Some). by rewrite <- (Hrt r), Heq, Hrt.
Qed.

(** X2: the text has two characters per byte of the address. *)
Theorem rom_to_hex_length (r : rom) :
  String.length (rom_to_hex r) = (2 * length r)%nat.
Proof.
  induction r as [|b r IH]; [done|].
  change (S (S (String.length (rom_to_hex r))) = (2 * S (length r))%nat). lia.
Qed.

(** ** The indicator *)



Lemma led_after_app tr1 tr2 :
  led_after (tr1 ++ tr2) =
    match led_after tr2 with Some on => Some on | None => led_after tr1 end.
Proof. unfold led_after. by rewrite omap_app, last_app. Qed.

Lemma flasher_loop_led delay n :
  led_after (flasher_loop delay n) = match n with O => None | S _ => Some true end.
Proof.
  induction n as [|n IH]; [done|].
  change (flasher_loop delay (S n))
    with ([ELed false; ESleepMs delay; ELed true] ++ flasher_loop delay n).
  rewrite led_after_app, IH. by destruct n.
Qed.



(** ** The resolution register *)

(** X4: [get_resolution] raises exactly when the scratchpad read raises or
    the scratchpad has fewer than five bytes. *)
Theorem get_resolution_raises (w : world) (r : rom) :
  get_resolution w r = None <->
  w_read_scratch w r = None \/
  exists scratch, w_read_scratch w r = Some scratch /\ (length scratch <= 4)%nat.
Proof.
  unfold get_resolution. destruct (w_read_scratch w r) as [scratch|]; simpl.
  - destruct (scratch !! 4%nat) as [b|] eqn:Hb; simpl.
    + apply lookup_lt_Some in Hb. split; [done|].
      intros [?|(s' & [= <-] & Hlen)]; [done|lia].
    + apply lookup_ge_None in Hb. split; [|done]. intros _. right. eauto.
  - split; [by left|done].
Qed.

Lemma get_resolution_range_witness :
  get_resolution (pond_world 22 22 x5f) pond_a = Some 3%Z /\ (0 <= 3 <= 3)%Z.
Proof.
  split; [reflexivity|].
  exact (get_resolution_range (pond_world 22 22 x5f) pond_a 3 eq_refl).
Defined.

Lemma get_resolution_ds18b20_witness :
  Z.land (Z.of_N (Byte.to_N x3f)) 31 = 31%Z /\
  get_resolution (pond_world 22 22 x3f) pond_a = Some 3%Z.
Proof.
  split; [reflexivity|].
  exact (get_resolution_ds18b20 (pond_world 22 22 x3f) pond_a (scratchpad x3f) x3f
           eq_refl eq_refl eq_refl).
Defined.

(** ** The device measurements *)

Lemma external_sensors_from_None w start roms :
  external_sensors_from w start roms = None <->
  Exists (fun r => w_read_temp w r = None \/ get_resolution w r = None) roms.
Proof.
  revert start. induction roms as [|r roms IH]; intros start; simpl.
  - split; [done|]. by intros ?%Exists_nil.
  - rewrite Exists_cons, <- (IH (S start)). unfold measurement.
    destruct (w_read_temp w r) as [t|]; simpl; [|split; [by left; left|done]].
    destruct (get_resolution w r) as [res|]; simpl; [|split; [by left; right|done]].
    destruct (external_sensors_from w (S start) roms); simpl.
    + split; [done|]. by intros [[|]|].
    + split; [by right|done].
Qed.

(** X7: [external_sensors] is all or nothing: it raises exactly when
    reading the temperature or the resolution of some device raises, and
    then none of the other measurements is returned. *)
Theorem external_sensors_raises (w : world) (roms : list rom) :
  external_sensors w roms = None <->
  Exists (fun r => w_read_temp w r = None \/ get_resolution w r = None) roms.
Proof. apply external_sensors_from_None. Qed.

Lemma placement_cases (h : string) :
  py_str (get_value_from_dict SENSOR_PLACEMENTS h) =
    if decide (h = "28fd93df0d000054") then "Pump housing"
    else if decide (h = "2825d05704e13c71") then "Pond"
    else if decide (h = "287e9d5704e13ca2") then "Pond"
    else "None".
Proof.
  unfold get_value_from_dict, SENSOR_PLACEMENTS. cbn [list_to_map foldr curry fst snd].
  rewrite !lookup_insert, lookup_empty.
  repeat case_decide; subst; done.
Qed.

(** X8: the location of a measurement is read from the placement table by
    the hexadecimal text of the address: the pump-housing probe, the two
    pond probes, and the text "None" for every other device. *)
Theorem measurement_location (w : world) (i : nat) (r : rom) (m : dict) :
  measurement w i r = Some m ->
  m !! "location" =
    Some (PStr (if decide (rom_to_hex r = "28fd93df0d000054") then "Pump housing"
                else if decide (rom_to_hex r = "2825d05704e13c71") then "Pond"
                else if decide (rom_to_hex r = "287e9d5704e13ca2") then "Pond"
                else "None")).
Proof.
  intros (t & res & _ & _ & _ & _ & _ & Hloc & _)%measurement_Some.
  rewrite Hloc. do 2 f_equal. apply placement_cases.
Qed.

Lemma measurement_location_witness :
  exists m, measurement (pond_world 22 22 x7f) 0 pond_a = Some m /\
            m !! "location" = Some (PStr "Pond").
Proof.
  assert (is_Some (measurement (pond_world 22 22 x7f) 0 pond_a)) as [m Hm]
    by (apply (bool_decide_unpack _); vm_compute; exact I).
  exists m. split; [exact Hm|].
  exact (measurement_location (pond_world 22 22 x7f) 0 pond_a m Hm).
Defined.

Lemma group_values_readings place w roms ms :
  place ≠ "None" ->
  Forall2 (fun r d => exists i, measurement w i r = Some d) roms ms ->
  group_values place ms = readings_at place w roms.
Proof.
  intros Hplace. induction 1 as [|r m roms ms [i Hm] _ IH]; [done|].
  change (group_values place (m :: ms))
    with (match (if bool_decide (m !! "location" = Some (PStr place))
                 then field "value" m else None) with
          | Some y => y :: group_values place ms
          | None => group_values place ms
          end).
  change (readings_at place w (r :: roms))
    with (match (if bool_decide (SENSOR_PLACEMENTS !! rom_to_hex r = Some place)
                 then w_read_temp w r else None) with
          | Some y => y :: readings_at place w roms
          | None => readings_at place w roms
          end).
  rewrite IH. clear IH.
  apply measurement_Some in Hm as (t & res & Ht & _ & _ & Hv & _ & Hloc & _).
  rewrite Hloc, Ht. unfold field, get_value_from_dict. rewrite Hv. simpl.
  destruct (SENSOR_PLACEMENTS !! rom_to_hex r) as [s|] eqn:Hs; simpl.
  - destruct (decide (s = place)) as [->|Hne].
    + by rewrite !bool_decide_eq_true_2.
    + rewrite !bool_decide_eq_false_2 by congruence. done.
  - rewrite !bool_decide_eq_false_2 by congruence. done.
Qed.

Lemma cycle_average_eq (roms : list rom) (w : world) :
  cycle_average roms w =
    _ ← w_convert_temp w;
    _ ← external_sensors w roms;
    _ ← w_get_reading w;
    Some (mean (readings_at "Pond" w roms)).
Proof.
  unfold cycle_average, cycle_measurements.
  destruct (w_convert_temp w) as [[]|]; simpl; [|done].
  destruct (external_sensors w roms) as [ms|] eqn:Hms; simpl; [|done].
  destruct (w_get_reading w); simpl; [|done].
  do 2 f_equal. apply group_values_readings; [done|].
  by apply external_sensors_Forall2.
Qed.

(** X9: the group average [main] computes in a pass, and stores in the
    summary record, is the mean of the readings of the devices the
    placement table puts at the pond; devices placed elsewhere or unknown
    to the table, and the onboard record, never enter it, whatever they
    read. *)
Theorem cycle_average_readings (roms : list rom) (ws : list world) (w : world)
    (ms : list dict) (rd : Qc * Qc * Qc) :
  w_convert_temp w = Some tt -> external_sensors w roms = Some ms ->
  w_get_reading w = Some rd ->
  avg_from_json (ms ++ [onboard_record w (length roms) rd]) "value" "location"
    (PStr "Pond")
  = Some (mean (readings_at "Pond" w roms)) /\
  field "avg" (summary (cycle w roms (run roms ws)).1)
  = Some (mean (readings_at "Pond" w roms)).
Proof.
  intros Hc Hms Hrd.
  rewrite <- (group_values_readings "Pond" w roms ms) by
    (done || by apply external_sensors_Forall2).
  split; [by apply measures_average|].
  destruct (cycle_aggregates w roms _ ms rd (run_seeded roms ws) Hc Hms Hrd)
    as (_ & _ & -> & _).
  reflexivity.
Qed.

Lemma cycle_average_readings_witness :
  let roms := [pump_probe; pond_a; stray_probe] in
  let w := open_world 21 23 40 in
  exists ms,
    external_sensors w roms = Some ms /\
    field "avg" (summary (cycle w roms (run roms [])).1)
    = Some (mean (readings_at "Pond" w roms)).
Proof.
  intros roms w.
  assert (is_Some (external_sensors w roms)) as [ms Hms]
    by (apply (bool_decide_unpack _); vm_compute; exact I).
  exists ms. split; [exact Hms|].
  exact (proj2 (cycle_average_readings roms [] w ms
                  (Qc_of_Z 27, Qc_of_Z 28, Qc_of_Z 26) eq_refl Hms eq_refl)).
Defined.

(** Only the pond probe among a pump-housing probe reading 40, a pond
    probe reading 21 and an unknown probe reading 40 is averaged. *)
Example average_ignores_other_placements :
  let roms := [pump_probe; pond_a; stray_probe] in
  let w := open_world 21 23 40 in
  this <$> field "avg" (summary (cycle w roms (run roms [])).1) = Some (21 # 1)%Q.
Proof. vm_compute. reflexivity. Qed.

(** ** [avg_from_json] on arbitrary records *)

Lemma foldl_sum_None (values : list pyval) :
  foldl (fun acc v => a ← acc; x ← py_num v; Some (a + x)) None values = None.
Proof. induction values as [|v values IH]; [done|]. exact IH. Qed.

Lemma py_sum_from (acc : Qc) (values : list pyval) :
  foldl (fun acc v => a ← acc; x ← py_num v; Some (a + x)) (Some acc) values
  = (fun vs => acc + sum_list vs) <$> mapM py_num values.
Proof.
  revert acc. induction values as [|v values IH]; intros acc; simpl.
  - by rewrite Qcplus_0_r.
  - destruct (py_num v) as [x|]; simpl; [|apply foldl_sum_None].
    rewrite IH. destruct (mapM py_num values) as [vs|]; simpl; [|done].
    by rewrite Qcplus_assoc.
Qed.

Lemma mapM_field (key : string) (l : list dict) :
  mapM (field key) l = mapM (fun e : dict => e !! key) l ≫= mapM py_num.
Proof.
  induction l as [|e l IH]; [done|]. simpl. rewrite IH. unfold field.
  destruct (e !! key) as [v|]; simpl; [|done].
  destruct (mapM (fun e : dict => e !! key) l) as [values|]; simpl;
    by destruct (py_num v).
Qed.

(** What [avg_from_json] computes in general: the mean of the numbers
    stored under [key] in the selected entries, provided each of them
    stores a number there. *)
Lemma avg_from_json_spec (json_array : list dict) (key condition_key : string)
    (condition_val : pyval) :
  avg_from_json json_array key condition_key condition_val =
    mean <$> mapM (field key) (filter (selected condition_key condition_val) json_array).
Proof.
  unfold avg_from_json.
  change (filter _ json_array)
    with (filter (selected condition_key condition_val) json_array).
  rewrite mapM_field.
  destruct (mapM (fun e : dict => e !! key) _) as [[|v values]|]; [done| |done].
  cbn [mbind option_bind]. unfold py_sum. rewrite py_sum_from.
  destruct (mapM py_num (v :: values)) as [vs|] eqn:Hvs; [|done].
  apply length_mapM in Hvs. destruct vs as [|q vs]; [done|].
  cbn [fmap option_fmap option_map mbind option_bind].
  unfold mean. by rewrite Qcplus_0_l, Hvs.
Qed.

(** X10: when no entry of the array is selected, [avg_from_json] answers 0
    without dividing, whatever the entries hold and whether or not they
    have the averaged key. *)
Theorem avg_from_json_no_match (json_array : list dict) (key condition_key : string)
    (condition_val : pyval) :
  Forall (fun e => ~ selected condition_key condition_val e) json_array ->
  avg_from_json json_array key condition_key condition_val = Some 0.
Proof.
  intros Hnone. rewrite avg_from_json_spec.
  replace (filter _ json_array) with (@nil dict); [done|].
  induction Hnone as [|e l He _ IH]; [done|]. by rewrite filter_cons_False.
Qed.

Lemma avg_from_json_no_match_witness :
  avg_from_json [{["location" := PStr "onboard"]}; ∅] "value" "location" (PStr "Pond")
  = Some 0.
Proof.
  apply avg_from_json_no_match.
  repeat constructor; unfold selected; by vm_compute.
Defined.

(** X11: [avg_from_json] raises exactly when some selected entry has no
    number under the averaged key, be the key missing ([KeyError]) or its
    value not a number ([TypeError]); entries that are not selected can
    hold anything. *)
Theorem avg_from_json_raises (json_array : list dict) (key condition_key : string)
    (condition_val : pyval) :
  avg_from_json json_array key condition_key condition_val = None <->
  Exists (fun e => selected condition_key condition_val e /\ field key e = None)
    json_array.
Proof.
  rewrite avg_from_json_spec, fmap_None, mapM_None, !Exists_exists.
  split.
  - intros (e & [Hsel Hin]%list_elem_of_filter & Hf). by exists e.
  - intros (e & Hin & Hsel & Hf). exists e. split; [|done].
    by apply list_elem_of_filter.
Qed.

(** ** The loop as a whole *)

Lemma quiet_no_sleep evs : Forall quiet_event evs -> sleeps evs = [].
Proof. induction 1 as [|[] evs He _ IH]; done. Qed.

Lemma quiet_no_destination evs : Forall quiet_event evs -> destinations evs = [].
Proof. induction 1 as [|[] evs He _ IH]; done. Qed.

Lemma sleeps_app tr1 tr2 : sleeps (tr1 ++ tr2) = sleeps tr1 ++ sleeps tr2.
Proof. apply omap_app. Qed.

Lemma destinations_app tr1 tr2 :
  destinations (tr1 ++ tr2) = destinations tr1 ++ destinations tr2.
Proof. apply omap_app. Qed.

Lemma pass_sleeps w roms s s' r :
  pass w roms s s' r -> sleeps (out s') = sleeps (out s).
Proof.
  destruct 1 as [evs _ Hq|ms rd a evs _ _ _ Hq|ms rd a evs _ _ _ _ Hq];
    cbn [out add_out]; rewrite !sleeps_app, (quiet_no_sleep _ Hq);
    simpl; by rewrite ?(right_id_L [] (++)).
Qed.

Lemma pass_destinations w roms s s' r :
  pass w roms s s' r ->
  destinations (out s') = destinations (out s) \/
  destinations (out s') = destinations (out s) ++ [(BROADCAST_IP, 5007%Z)].
Proof.
  destruct 1 as [evs _ Hq|ms rd a evs _ _ _ Hq|ms rd a evs _ _ _ _ Hq];
    cbn [out add_out]; rewrite !destinations_app, (quiet_no_destination _ Hq);
    simpl; rewrite ?(right_id_L [] (++)); auto.
Qed.

(** X14: the loop sleeps [LOOP_SLEEP_SECS] once after every pass, whether
    the pass sent its batch or raised, and nowhere else. *)
Theorem one_sleep_per_pass (roms : list rom) (ws : list world) :
  sleeps (out (run roms ws)) = replicate (length ws) LOOP_SLEEP_SECS.
Proof.
  induction ws as [|w ws IH] using rev_ind; [done|].
  rewrite run_snoc, length_app, Nat.add_1_r, replicate_S_end, <- IH.
  change (out (add_out ?s ?evs)) with (out s ++ evs). rewrite sleeps_app.
  by rewrite (pass_sleeps _ _ _ _ _ (cycle_pass w roms _ (run_seeded roms ws))).
Qed.

(** X15: every datagram of a run goes to the broadcast address on port
    5007. *)
Theorem datagrams_to_broadcast (roms : list rom) (ws : list world) :
  Forall (fun d => d = (BROADCAST_IP, 5007%Z)) (destinations (out (run roms ws))).
Proof.
  induction ws as [|w ws IH] using rev_ind; [constructor|].
  rewrite run_snoc.
  change (out (add_out ?s ?evs)) with (out s ++ evs). rewrite destinations_app.
  change (destinations [ESleep LOOP_SLEEP_SECS]) with (@nil (string * Z)).
  rewrite (right_id_L [] (++)).
  destruct (pass_destinations _ _ _ _ _ (cycle_pass w roms _ (run_seeded roms ws)))
    as [->| ->]; [done|].
  apply Forall_app. split; [done|]. by repeat constructor.
Qed.

Lemma succeeds_sensed roms w :
  succeeds roms w = true <->
  w_convert_temp w = Some tt /\ is_Some (sensed w roms) /\
  w_dumps w = Some tt /\ w_sendto w = Some tt.
Proof.
  unfold succeeds. rewrite bool_decide_eq_true, sensed_eq.
  destruct (w_convert_temp w) as [[]|], (external_sensors w roms),
    (w_get_reading w), (w_dumps w) as [[]|], (w_sendto w) as [[]|]; simpl;
    split; intros H; destruct_and?; repeat split; eauto;
    by match goal with H : is_Some None |- _ => destruct H end.
Qed.

Lemma pass_sent_length w roms s s' r :
  pass w roms s s' r ->
  length (sent_batches (out s')) =
    (length (sent_batches (out s)) + match r with Some _ => 1 | None => 0 end)%nat.
Proof.
  destruct 1 as [evs _ Hq|ms rd a evs _ _ _ Hq|ms rd a evs _ _ _ _ Hq];
    cbn [out add_out]; rewrite !sent_batches_app, (sent_batches_quiet _ Hq);
    simpl; rewrite ?(right_id_L [] (++)), ?length_app; simpl; lia.
Qed.

Lemma pass_result_succeeds w roms s s' r :
  pass w roms s s' r -> (r = Some tt <-> succeeds roms w = true).
Proof.
  rewrite succeeds_sensed.
  destruct 1 as [evs Hfail _|ms rd a evs _ _ Hfail _|ms rd a evs Hc Hsen Hd Hsd _].
  - split; [done|]. intros (Hc & [x Hx] & _). destruct Hfail; congruence.
  - split; [done|]. intros (_ & _ & Hd & Hsd). destruct Hfail; congruence.
  - split; [|done]. intros _. rewrite Hsen. eauto.
Qed.

(** X16: a run sends exactly one datagram for each pass in which no step
    raises, and none for the others. *)
Theorem one_batch_per_successful_pass (roms : list rom) (ws : list world) :
  length (sent_batches (out (run roms ws))) = length (filter (succeeds roms) ws).
Proof.
  induction ws as [|w ws IH] using rev_ind; [done|].
  rewrite run_snoc, filter_app, length_app, <- IH.
  change (out (add_out ?s ?evs)) with (out s ++ evs).
  rewrite sent_batches_app, length_app.
  change (sent_batches [ESleep LOOP_SLEEP_SECS]) with (@nil (list dict)).
  pose proof (cycle_pass w roms _ (run_seeded roms ws)) as Hp.
  rewrite (pass_sent_length _ _ _ _ _ Hp).
  apply pass_result_succeeds in Hp.
  destruct (cycle w roms (run roms ws)).2 as [[]|].
  - rewrite filter_cons_True; [simpl; lia|]. apply Is_true_true. by apply Hp.
  - rewrite filter_cons_False; [simpl; lia|].
    intros H%Is_true_true%Hp. done.
Qed.

(** ** Seeding of the extrema *)

Lemma aggregated_pass_covered w roms s ms rd a :
  seeded_together s ->
  w_convert_temp w = Some tt -> sensed w roms = Some (ms, rd, a) ->
  let s' := (cycle w roms s).1 in
  seeded_together s' /\
  (exists cmn cmx, c_min s' = Some cmn /\ c_max s' = Some cmx /\ cmn ≤ a /\ a ≤ cmx) /\
  exists new,
    sent_batches (out s') = sent_batches (out s) ++ new /\
    Forall (fun b => reports b a (new_min (c_min s) a) (new_max (c_max s) a)) new.
Proof.
  intros Hs Hc Hsen s'. pose proof (cycle_pass w roms s Hs) as Hp. fold s' in Hp.
  split; [exact (pass_seeded _ _ _ _ _ Hp Hs)|].
  clearbody s'.
  destruct Hp as [evs [?|?] _|ms' rd' a' evs _ Hsen' _ Hq|ms' rd' a' evs _ Hsen' _ _ Hq];
    [congruence|congruence|..];
    rewrite Hsen in Hsen'; injection Hsen' as <- <- <-; cbn [out c_min c_max].
  - split.
    { eexists _, _. split; [done|]. split; [done|].
      split; [apply new_min_le_avg|apply new_max_ge_avg]. }
    exists []. by rewrite sent_batches_app, (sent_batches_quiet _ Hq).
  - split.
    { eexists _, _. split; [done|]. split; [done|].
      split; [apply new_min_le_avg|apply new_max_ge_avg]. }
    eexists [_]. rewrite !sent_batches_app, (sent_batches_quiet _ Hq).
    split; [done|]. constructor; [|done].
    apply sensed_Some in Hsen as (Hms & _ & _).
    eapply batch_of_reports, measurements_are_hardware, Hms.
Qed.

Lemma no_average_nothing_sent roms ws :
  omap (cycle_average roms) ws = [] -> sent_batches (out (run roms ws)) = [].
Proof.
  induction ws as [|w ws IH] using rev_ind; [done|].
  rewrite omap_app. intros [Hws Hw]%app_eq_nil. rewrite run_snoc.
  change (out (add_out ?s ?evs)) with (out s ++ evs).
  rewrite sent_batches_app.
  change (sent_batches [ESleep LOOP_SLEEP_SECS]) with (@nil (list dict)).
  rewrite (right_id_L [] (++)).
  destruct (cycle_pass w roms _ (run_seeded roms ws))
    as [evs _ Hq|ms rd a evs Hc Hsen _ _|ms rd a evs Hc Hsen _ _ _].
  - cbn [out add_out]. by rewrite sent_batches_app, (sent_batches_quiet _ Hq), IH.
  - simpl in Hw. by rewrite (cycle_average_Some _ _ _ _ _ Hc Hsen) in Hw.
  - simpl in Hw. by rewrite (cycle_average_Some _ _ _ _ _ Hc Hsen) in Hw.
Qed.

(** X17: until a pass gets as far as the aggregation the extrema are unset
    and nothing is sent; the first pass that does seeds both extrema with
    its own average, whether or not its batch is then sent, and a batch it
    sends reports min = avg = max. *)
Theorem first_average_seeds_extrema (roms : list rom) (ws : list world) (w : world) :
  omap (cycle_average roms) ws = [] ->
  c_min (run roms ws) = None /\ c_max (run roms ws) = None /\
  sent_batches (out (run roms ws)) = [] /\
  (forall ms rd,
     w_convert_temp w = Some tt -> external_sensors w roms = Some ms ->
     w_get_reading w = Some rd ->
     let a := mean (group_values "Pond" ms) in
     c_min (run roms (ws ++ [w])) = Some a /\
     c_max (run roms (ws ++ [w])) = Some a /\
     summary (run roms (ws ++ [w])) = summary_record a (Some a) (Some a)) /\
  Forall (fun b => exists a, cycle_average roms w = Some a /\ reports b a a a)
    (sent_batches (out (run roms (ws ++ [w])))).
Proof.
  intros Hnone. destruct (run_extrema roms ws) as [Hmin Hmax].
  rewrite Hnone in Hmin, Hmax. simpl in Hmin, Hmax.
  pose proof (no_average_nothing_sent roms ws Hnone) as Hsent.
  split; [done|]. split; [done|]. split; [done|]. split.
  { intros ms rd Hc Hms Hrd a. rewrite run_snoc.
    destruct (cycle_aggregates w roms _ ms rd (run_seeded roms ws) Hc Hms Hrd)
      as (Hmx & Hmn & Hsumm & _).
    rewrite Hmin, Hmax in *. cbn [c_min c_max summary add_out].
    by rewrite Hmx, Hmn, Hsumm. }
  rewrite run_snoc. change (out (add_out ?s ?evs)) with (out s ++ evs).
  rewrite sent_batches_app.
  change (sent_batches [ESleep LOOP_SLEEP_SECS]) with (@nil (list dict)).
  rewrite (right_id_L [] (++)).
  destruct (cycle_average roms w) as [a|] eqn:Ha.
  - apply cycle_average_inv in Ha as (ms & rd & Hc & Hsen).
    destruct (aggregated_pass_covered w roms _ ms rd a (run_seeded roms ws) Hc Hsen)
      as (_ & _ & new & -> & Hnew).
    rewrite Hsent, Hmin, Hmax in *. simpl. simpl in Hnew.
    eapply Forall_impl; [exact Hnew|]. intros b Hb. by exists a.
  - destruct (cycle_pass w roms _ (run_seeded roms ws))
      as [evs _ Hq|ms rd a evs Hc Hsen _ _|ms rd a evs Hc Hsen _ _ _].
    + cbn [out add_out]. rewrite sent_batches_app, (sent_batches_quiet _ Hq), Hsent.
      constructor.
    + by rewrite (cycle_average_Some _ _ _ _ _ Hc Hsen) in Ha.
    + by rewrite (cycle_average_Some _ _ _ _ _ Hc Hsen) in Ha.
Qed.

Lemma first_average_seeds_extrema_witness :
  let ws := [bus_fails (pond_world 30 30 x7f)] in
  let w := send_fails (pond_world 19 26 x7f) in
  omap (cycle_average pond_roms) ws = [] /\
  exists ms,
    external_sensors w pond_roms = Some ms /\
    c_min (run pond_roms (ws ++ [w])) = Some (mean (group_values "Pond" ms)) /\
    c_max (run pond_roms (ws ++ [w])) = Some (mean (group_values "Pond" ms)).
Proof.
  intros ws w. split; [reflexivity|].
  assert (is_Some (external_sensors w pond_roms)) as [ms Hms]
    by (apply (bool_decide_unpack _); vm_compute; exact I).
  exists ms. split; [exact Hms|].
  destruct (first_average_seeds_extrema pond_roms ws w eq_refl)
    as (_ & _ & _ & Hseed & _).
  destruct (Hseed ms (Qc_of_Z 27, Qc_of_Z 28, Qc_of_Z 26) eq_refl Hms eq_refl)
    as (Hmn & Hmx & _).
  split; [exact Hmn|exact Hmx].
Defined.

(** X18: once a pass has got as far as the aggregation while no device
    placed at the pond was on the bus, its average 0 is part of the
    extrema: every batch sent by that pass or a later one reports a
    minimum of at most 0 and a maximum of at least 0. *)
Theorem empty_group_pins_zero (roms : list rom) (ws0 : list world) (w : world)
    (ws : list world) (a : Qc) :
  cycle_average roms w = Some a ->
  readings_at "Pond" w roms = [] ->
  a = 0 /\
  exists later,
    sent_batches (out (run roms (ws0 ++ w :: ws))) =
      sent_batches (out (run roms ws0)) ++ later /\
    Forall (fun b => exists a' mn mx, reports b a' mn mx /\ mn ≤ 0 /\ 0 ≤ mx) later.
Proof.
  intros Ha Hempty.
  assert (a = 0) as ->.
  { rewrite cycle_average_eq, Hempty in Ha.
    destruct (w_convert_temp w) as [[]|]; simpl in Ha; [|done].
    destruct (external_sensors w roms); simpl in Ha; [|done].
    destruct (w_get_reading w); simpl in Ha; [|done]. by injection Ha as <-. }
  split; [done|].
  apply cycle_average_inv in Ha as (ms & rd & Hc & Hsen).
  destruct (aggregated_pass_covered w roms _ ms rd 0 (run_seeded roms ws0) Hc Hsen)
    as (Hs' & Hcov & new & Hnew & Hrep).
  rewrite run_app, main_loop_cons.
  destruct (later_batches_cover 0 roms ws
              (add_out (cycle w roms (run roms ws0)).1 [ESleep LOOP_SLEEP_SECS])
              (sent_batches (out (run roms ws0)) ++ new))
    as (later & -> & Hlater).
  - exact Hs'.
  - exact Hcov.
  - cbn [out add_out]. rewrite sent_batches_app, Hnew. simpl.
    by rewrite (right_id_L [] (++)).
  - exists (new ++ later). split; [by rewrite (assoc_L (++))|].
    apply Forall_app. split; [|done].
    eapply Forall_impl; [exact Hrep|]. intros b Hb. eexists _, _, _.
    split; [exact Hb|]. split; [apply new_min_le_avg|apply new_max_ge_avg].
Qed.

Lemma empty_group_pins_zero_witness :
  let roms := [pump_probe] in
  let w := open_world 21 23 40 in
  exists a,
    cycle_average roms w = Some a /\ readings_at "Pond" w roms = [] /\
    exists later,
      sent_batches (out (run roms ([] ++ w :: [w]))) =
        sent_batches (out (run roms [])) ++ later /\
      Forall (fun b => exists a' mn mx, reports b a' mn mx /\ mn ≤ 0 /\ 0 ≤ mx) later.
Proof.
  intros roms w.
  assert (is_Some (cycle_average roms w)) as [a Ha]
    by (apply (bool_decide_unpack _); vm_compute; exact I).
  exists a. split; [exact Ha|]. split; [reflexivity|].
  exact (proj2 (empty_group_pins_zero roms [] w [w] a Ha eq_refl)).
Defined.

(** ** The indicator during the loop *)

(** X19: a pass leaves the indicator on only if it got as far as the
    encoder returning; a pass that raised earlier (bus, onboard reading)
    leaves it off, so it stays off through the sleep that follows. *)
Theorem led_after_pass (roms : list rom) (ws : list world) (w : world) :
  led_after (out (cycle w roms (run roms ws)).1) =
    Some (bool_decide (is_Some (cycle_average roms w) /\ is_Some (w_dumps w))).
Proof.
  rewrite (cycle_eq w roms _ (run_seeded roms ws)).
  destruct (w_convert_temp w) as [[]|] eqn:Hc.
  - destruct (sensed w roms) as [[[ms rd] a]|] eqn:Hsen.
    + rewrite (cycle_average_Some _ _ _ _ _ Hc Hsen).
      destruct (w_dumps w) as [[]|]; [destruct (w_sendto w) as [[]|]|];
        cbn [fst out]; rewrite led_after_app.
      * by rewrite bool_decide_eq_true_2 by (split; eauto).
      * by rewrite bool_decide_eq_true_2 by (split; eauto).
      * by rewrite bool_decide_eq_false_2 by (by intros [_ [? ?]]).
    + rewrite (cycle_average_None_quiet roms w (or_intror Hsen)).
      cbn [fst out add_out]. rewrite led_after_app.
      by rewrite bool_decide_eq_false_2 by (by intros [[? ?] _]).
  - rewrite (cycle_average_None_quiet roms w (or_introl Hc)).
    cbn [fst out add_out]. rewrite led_after_app.
    by rewrite bool_decide_eq_false_2 by (by intros [[? ?] _]).
Qed.

(** ** Device discovery *)



(** ** The indicator while connecting *)

Lemma flasher_led_on delay times :
  (0 < times)%Z -> led_after (flasher delay times) = Some true.
Proof.
  intros H. unfold flasher. rewrite flasher_loop_led.
  destruct (Z.to_nat times) eqn:E; [lia|done].
Qed.

Lemma retry_blocks_led n :
  led_after (mjoin (replicate n retry_block)) =
    match n with O => None | S _ => Some true end.
Proof.
  induction n as [|n IH]; [done|].
  change (mjoin (replicate (S n) retry_block))
    with (retry_block ++ mjoin (replicate n retry_block)).
  rewrite led_after_app, IH. destruct n; [|done].
  unfold retry_block. rewrite !led_after_app.
  by rewrite (flasher_led_on 20 20 eq_refl).
Qed.

(** X21: [connect_to_wlan] returns with the indicator on, however many
    polls it took. *)
Theorem connect_to_wlan_led_on (fuel : nat) (isconnected : nat -> bool)
    (ssid password : string) (retry_count : Z) (tr : list event) :
  connect_to_wlan fuel isconnected ssid password = Some (retry_count, tr) ->
  led_after tr = Some true.
Proof.
  unfold connect_to_wlan. intros H.
  pose proof (wlan_wait_spec fuel isconnected 0 1
                (flasher 5 10 ++ [ESleep 3; EActive true; ESleep 2; EConnect ssid password]))
    as Hspec.
  rewrite H in Hspec. destruct Hspec as (n & _ & _ & _ & _ & ->).
  rewrite !led_after_app, retry_blocks_led.
  change (led_after [EIsConnected true]) with (@None bool).
  destruct n; [|done].
  change (led_after [ESleep 3; EActive true; ESleep 2; EConnect ssid password])
    with (@None bool).
  by rewrite (flasher_led_on 5 10 eq_refl).
Qed.

Lemma connect_to_wlan_led_on_witness :
  exists retry_count tr,
    connect_to_wlan 2 ready_at_second_poll "ssid" "password" = Some (retry_count, tr) /\
    led_after tr = Some true.
Proof.
  eexists 2%Z, _. split; [reflexivity|].
  exact (connect_to_wlan_led_on 2 ready_at_second_poll "ssid" "password" 2 _ eq_refl).
Defined.
